(** * OpenQQ/app.py: the query resolution and image tagging pipelines

    A shallow embedding of [src/OpenQQ/app.py]: the SQLite file [cache.db]
    with its two tables, [init_db], the [/api/ask] handler (cache lookup,
    knowledge search with SQL [LIKE], generative fallback, cache write-back)
    and the [/api/autotag] handler (argmax over the four fixed tags).

    Python [str] values are modelled by [string]; a character is modelled by
    its code point, restricted to the 8 bit range of [ascii]. SQLite gets a
    string as its UTF-8 bytes: one byte for a code point below 128, two for
    the others of this range. *)

From Stdlib Require Import Ascii String QArith.
From stdpp Require Import gmap strings list.

Local Open Scope char_scope.
Local Open Scope stdpp_scope.

(** * Text *)

Module Text.

(** The folding SQLite applies to both operands of [LIKE]: the 26 ASCII
    upper case letters go to lower case, every other character is kept. *)
Definition fold_char (c : ascii) : ascii :=
  let n := Ascii.nat_of_ascii c in
  if (65 <=? n)%nat && (n <=? 90)%nat then Ascii.ascii_of_nat (n + 32) else c.

Fixpoint lower (s : string) : string :=
  match s with
  | EmptyString => EmptyString
  | String c s' => String (fold_char c) (lower s')
  end.

Definition is_wildcard (c : ascii) : bool :=
  Ascii.eqb c "%" || Ascii.eqb c "_".

Fixpoint wildcard_free (s : string) : bool :=
  match s with
  | EmptyString => true
  | String c s' => negb (is_wildcard c) && wildcard_free s'
  end.

(** SQLite's [patternCompare] for [LIKE] with its defaults (no ESCAPE clause,
    case_sensitive_like off), on strings without NUL: [%] stands for any run
    of characters, also the empty one, [_] for exactly one character, and
    any other character for itself up to [fold_char]. *)
Fixpoint pattern_compare (pat : string) : string → bool :=
  match pat with
  | EmptyString =>
      λ s, match s with EmptyString => true | String _ _ => false end
  | String c pat' =>
      if Ascii.eqb c "%" then
        fix skip (s : string) : bool :=
          pattern_compare pat' s ||
          match s with EmptyString => false | String _ s' => skip s' end
      else if Ascii.eqb c "_" then
        λ s, match s with EmptyString => false | String _ s' => pattern_compare pat' s' end
      else
        λ s, match s with
             | EmptyString => false
             | String d s' => Ascii.eqb (fold_char c) (fold_char d) && pattern_compare pat' s'
             end
  end.

(** A string as C reads it: up to the first NUL character. *)
Fixpoint c_str (s : string) : string :=
  match s with
  | EmptyString => EmptyString
  | String c s' => if Ascii.eqb c "000" then EmptyString else String c (c_str s')
  end.

Fixpoint nul_free (s : string) : bool :=
  match s with
  | EmptyString => true
  | String c s' => negb (Ascii.eqb c "000") && nul_free s'
  end.

Fixpoint all_percent (s : string) : bool :=
  match s with
  | EmptyString => true
  | String c s' => Ascii.eqb c "%" && all_percent s'
  end.

(** The number of bytes of the UTF-8 encoding. *)
Fixpoint utf8_bytes (s : string) : N :=
  match s with
  | EmptyString => 0
  | String c s' => (if (Ascii.N_of_ascii c <? 128)%N then 1 else 2) + utf8_bytes s'
  end%N.

(** Lower case of the 26 ASCII letters, as a table. *)
Definition lowercase_char (c : ascii) : ascii :=
  match c with
  | "A" => "a" | "B" => "b" | "C" => "c" | "D" => "d" | "E" => "e"
  | "F" => "f" | "G" => "g" | "H" => "h" | "I" => "i" | "J" => "j"
  | "K" => "k" | "L" => "l" | "M" => "m" | "N" => "n" | "O" => "o"
  | "P" => "p" | "Q" => "q" | "R" => "r" | "S" => "s" | "T" => "t"
  | "U" => "u" | "V" => "v" | "W" => "w" | "X" => "x" | "Y" => "y"
  | "Z" => "z"
  | _ => c
  end%char.

Fixpoint lowercase (s : string) : string :=
  match s with
  | EmptyString => EmptyString
  | String c s' => String (lowercase_char c) (lowercase s')
  end.

(** Literal containment, the reading of "contains [q] as a substring":
    [q] is a prefix of some suffix of [s]. *)
Fixpoint starts_with (q s : string) : bool :=
  match q, s with
  | EmptyString, _ => true
  | String _ _, EmptyString => false
  | String a q', String b s' => Ascii.eqb a b && starts_with q' s'
  end.

Fixpoint contains (q s : string) : bool :=
  starts_with q s ||
  match s with EmptyString => false | String _ s' => contains q s' end.

(** ['\n'.join(parts)] *)
Definition newline : string := String "010" EmptyString.

Fixpoint join (sep : string) (parts : list string) : string :=
  match parts with
  | [] => ""
  | [x] => x
  | x :: rest => x +:+ sep +:+ join sep rest
  end.

End Text.

(** * The store: the SQLite file [cache.db] *)

(** A row of table [tech (name TEXT, description TEXT, url TEXT)]. *)
Record tech_row := TechRow {
  name : string;
  description : string;
  url : string
}.

Definition HEALTHCARE_TECH : list tech_row := [
  TechRow "OpenMRS" "Customizable EMR system." "https://openmrs.org/";
  TechRow "OpenEMR" "Open-source EHR and practice management."
          "https://www.open-emr.org/";
  TechRow "GNU Health" "Health and hospital information system."
          "https://www.gnuhealth.org/"
].

(** The database file. Table [cache (prompt TEXT PRIMARY KEY, response TEXT)]
    holds at most one row per prompt, so it is a finite map; table [tech] is
    the list of its rows in insertion order. A table is [None] when the file
    has no such table: [init_db] looks only at whether the file exists, so a
    file from elsewhere is used as it is. [writable] is [false] when SQLite
    cannot write the file (read-only file, full disk, lock held). *)
Record dbfile := DbFile {
  cache : option (gmap string string);
  tech : option (list tech_row);
  writable : bool
}.

(** What [sqlite3.connect] makes of a path with no file. *)
Definition empty_db : dbfile := DbFile None None true.

(** * Effects *)

(** The exceptions the handlers can meet; all derive from [Exception]. *)
Inductive exn :=
| OperationalError (msg : string)      (* sqlite3.OperationalError *)
| IntegrityError (msg : string)        (* sqlite3.IntegrityError *)
| OpenAIError (msg : string)           (* whatever the completion call raises *)
| UnidentifiedImageError (msg : string) (* PIL cannot decode the upload *)
| OSError (msg : string)               (* truncated image, model files missing *)
| RuntimeError (msg : string)
| IndexError (msg : string)
| OtherError (class msg : string).     (* any other exception of a library *)

(** [str(e)] *)
Definition str (e : exn) : string :=
  match e with
  | OperationalError m | IntegrityError m | OpenAIError m
  | UnidentifiedImageError m | OSError m | RuntimeError m | IndexError m
  | OtherError _ m => m
  end.

Inductive result (A : Type) :=
| Ok (a : A)
| Raise (e : exn).
Arguments Ok {A} a.
Arguments Raise {A} e.

(** The calls that leave the handler, in the order they are made. *)
Inductive event :=
| CacheSelect (prompt : string)
| TechSelect (pattern : string)
| ChatCompletion (prompt : string)
| CacheInsert (prompt response : string).

(** A computation reads and writes the database file, returns or raises, and
    logs the external calls it made. *)
Definition M (A : Type) : Type := dbfile → result A * dbfile * list event.

Definition ret {A} (a : A) : M A := λ db, (Ok a, db, []).

Definition bind {A B} (c : M A) (k : A → M B) : M B := λ db,
  match c db with
  | (Ok a, db', tr) =>
      match k a db' with (r, db'', tr') => (r, db'', tr ++ tr') end
  | (Raise e, db', tr) => (Raise e, db', tr)
  end.

(** [try: c except Exception as e: h e] *)
Definition try_except {A} (c : M A) (h : exn → M A) : M A := λ db,
  match c db with
  | (Ok a, db', tr) => (Ok a, db', tr)
  | (Raise e, db', tr) =>
      match h e db' with (r, db'', tr') => (r, db'', tr ++ tr') end
  end.

Notation "'do' x <- c ; k" := (bind c (λ x, k))
  (at level 10, x name, c at level 100, k at level 200).

Definition outcome {A} (r : result A * dbfile * list event) : result A := r.1.1.
Definition final_db {A} (r : result A * dbfile * list event) : dbfile := r.1.2.
Definition trace {A} (r : result A * dbfile * list event) : list event := r.2.

(** * SQL statements *)

Module Sql.

Definition no_such_table (t : string) : exn :=
  OperationalError ("no such table: " +:+ t).
Definition table_exists (t : string) : exn :=
  OperationalError ("table " +:+ t +:+ " already exists").
Definition readonly : exn :=
  OperationalError "attempt to write a readonly database".
Definition unique_failed : exn :=
  IntegrityError "UNIQUE constraint failed: cache.prompt".

(** [CREATE TABLE cache (prompt TEXT PRIMARY KEY, response TEXT)] *)
Definition create_cache : M unit := λ db,
  if negb (writable db) then (Raise readonly, db, [])
  else match cache db with
       | Some _ => (Raise (table_exists "cache"), db, [])
       | None => (Ok (), DbFile (Some ∅) (tech db) (writable db), [])
       end.

(** [CREATE TABLE tech (name TEXT, description TEXT, url TEXT)] *)
Definition create_tech : M unit := λ db,
  if negb (writable db) then (Raise readonly, db, [])
  else match tech db with
       | Some _ => (Raise (table_exists "tech"), db, [])
       | None => (Ok (), DbFile (cache db) (Some []) (writable db), [])
       end.

(** [INSERT INTO tech VALUES (?, ?, ?)] *)
Definition insert_tech (r : tech_row) : M unit := λ db,
  match tech db with
  | None => (Raise (no_such_table "tech"), db, [])
  | Some t =>
      if negb (writable db) then (Raise readonly, db, [])
      else (Ok (), DbFile (cache db) (Some (t ++ [r])) (writable db), [])
  end.

Fixpoint executemany (rows : list tech_row) : M unit :=
  match rows with
  | [] => ret ()
  | r :: rows' => do _ <- insert_tech r; executemany rows'
  end.

(** [SELECT response FROM cache WHERE prompt = ?] and [fetchone()]. *)
Definition select_cache (prompt : string) : M (option string) := λ db,
  match cache db with
  | None => (Raise (no_such_table "cache"), db, [CacheSelect prompt])
  | Some c => (Ok (c !! prompt), db, [CacheSelect prompt])
  end.

(** SQLite's [likeFunc], the function behind [text LIKE pattern]: a pattern
    of more than SQLITE_MAX_LIKE_PATTERN_LENGTH bytes is refused, else
    pattern and text are compared as C strings. *)
Definition SQLITE_MAX_LIKE_PATTERN_LENGTH : N := 50000.

Definition too_complex : exn :=
  OperationalError "LIKE or GLOB pattern too complex".

Definition like (pattern text : string) : result bool :=
  if (SQLITE_MAX_LIKE_PATTERN_LENGTH <? Text.utf8_bytes pattern)%N then
    Raise too_complex
  else
    Ok (Text.pattern_compare (Text.c_str pattern) (Text.c_str text)).

(** [name LIKE ? OR description LIKE ?] on one row. *)
Definition where_row (pattern : string) (r : tech_row) : result bool :=
  match like pattern (name r) with
  | Raise e => Raise e
  | Ok true => Ok true
  | Ok false => like pattern (description r)
  end.

(** The scan of table [tech]: the WHERE clause is evaluated row by row, in
    table order; the rows it keeps are projected on [name, description]; an
    error in a row ends the statement. *)
Fixpoint search (pattern : string) (t : list tech_row) : result (list (string * string)) :=
  match t with
  | [] => Ok []
  | r :: t' =>
      match where_row pattern r with
      | Raise e => Raise e
      | Ok keep =>
          match search pattern t' with
          | Raise e => Raise e
          | Ok rows => Ok (if keep then (name r, description r) :: rows else rows)
          end
      end
  end.

(** [SELECT name, description FROM tech WHERE name LIKE ? OR description
    LIKE ?] and [fetchall()]. *)
Definition select_tech (pattern : string) : M (list (string * string)) := λ db,
  match tech db with
  | None => (Raise (no_such_table "tech"), db, [TechSelect pattern])
  | Some t => (search pattern t, db, [TechSelect pattern])
  end.

(** [INSERT INTO cache (prompt, response) VALUES (?, ?)] and [commit()]:
    a plain INSERT, so the primary key rejects a prompt that has a row. *)
Definition insert_cache (prompt response : string) : M unit := λ db,
  let ev := [CacheInsert prompt response] in
  match cache db with
  | None => (Raise (no_such_table "cache"), db, ev)
  | Some c =>
      if negb (writable db) then (Raise readonly, db, ev)
      else match c !! prompt with
           | Some _ => (Raise unique_failed, db, ev)
           | None =>
               (Ok (), DbFile (Some (<[prompt := response]> c)) (tech db) (writable db), ev)
           end
  end.

End Sql.

(** * init_db *)

(** The file system holds the file at [DB_PATH] or not. *)
Definition init_db (fs : option dbfile) : option dbfile :=
  match fs with
  | Some db => Some db                     (* os.path.exists(DB_PATH) *)
  | None =>
      Some (final_db ((do _ <- Sql.create_cache;
                       do _ <- Sql.create_tech;
                       Sql.executemany HEALTHCARE_TECH) empty_db))
  end.

(** * /api/ask *)

(** What the completion service does with a prompt: it answers with the
    content of the first choice, or the call (or the indexing of its result)
    raises an exception whose text is [details]. *)
Inductive completion :=
| Content (text : string)
| Failure (details : string).

(** The JSON bodies the handlers build with [jsonify]. *)
Inductive body :=
| Response (response : string)      (* {"response": ...} *)
| Error (error : string)            (* {"error": ...} *)
| Label (label : string).           (* {"label": ...} *)

(** A Flask return value: body and HTTP status. *)
Definition reply : Type := body * Z.

(** [openai.ChatCompletion.create(...)['choices'][0]['message']['content']] *)
Definition ChatCompletion_create (llm : string → completion) (prompt : string)
  : M string := λ db,
  (match llm prompt with
   | Content text => Ok text
   | Failure details => Raise (OpenAIError details)
   end, db, [ChatCompletion prompt]).

(** [f"{r[0]}: {r[1]}"] *)
Definition format_row (r : string * string) : string := r.1 +:+ ": " +:+ r.2.

(** [request.json.get('prompt')] is [None] for a body without the field and
    the string otherwise; [not prompt] holds of [None] and of the empty
    string. *)
Definition ask (llm : string → completion) (prompt : option string) : M reply :=
  match prompt with
  | None | Some EmptyString => ret (Error "Prompt is required", 400%Z)
  | Some prompt =>
      do row <- Sql.select_cache prompt;
      match row with
      | Some r => ret (Response r, 200%Z)
      | None =>
          do results <- Sql.select_tech ("%" +:+ prompt +:+ "%");
          do response <-
            match results with
            | _ :: _ => ret (Text.join Text.newline (map format_row results))
            | [] =>
                try_except (ChatCompletion_create llm prompt)
                  (λ e, ret ("[Error calling model: " +:+ str e +:+ "]"))
            end;
          do _ <- Sql.insert_cache prompt response;
          ret (Response response, 200%Z)
      end
  end.

(** The store between two requests: a request to [/api/ask] ran (with any
    prompt and whatever the completion service answered then), or something
    outside the handler changed the knowledge table or the file's
    writability. Nothing but [ask] touches table [cache]. *)
Inductive evolves : dbfile → dbfile → Prop :=
| evolves_refl db :
    evolves db db
| evolves_ask db db' llm prompt :
    evolves db db' →
    evolves db (final_db (ask llm prompt db'))
| evolves_env db db' t w :
    evolves db db' →
    evolves db (DbFile (cache db') t w).

(** The search of the specification, in its words: the records whose name or
    description contains the query as a case-sensitive literal substring. *)
Definition search_spec (query : string) (t : list tech_row) : list (string * string) :=
  map (λ r, (name r, description r))
      (List.filter (λ r, Text.contains query (name r) || Text.contains query (description r)) t).

(** The search with the case of ASCII letters set aside: the records whose
    name or description contains the query once both are put in lower
    case. *)
Definition search_folded (query : string) (t : list tech_row) : list (string * string) :=
  map (λ r, (name r, description r))
      (List.filter (λ r,
         Text.contains (Text.lowercase query) (Text.lowercase (name r)) ||
         Text.contains (Text.lowercase query) (Text.lowercase (description r))) t).

(** A row whose texts hold no NUL character. *)
Definition nul_free_row (r : tech_row) : Prop :=
  Text.nul_free (name r) = true ∧ Text.nul_free (description r) = true.

(** * /api/autotag *)

Module Tensor.

Definition Qltb (x y : Q) : bool := negb (Qle_bool y x).

(** A scan that keeps the first maximal entry: the running best is replaced
    only by a strictly greater one. *)
Fixpoint argmax_from (best : Q) (best_i i : nat) (row : list Q) : nat :=
  match row with
  | [] => best_i
  | x :: row' =>
      if Qltb best x then argmax_from x i (S i) row'
      else argmax_from best best_i (S i) row'
  end.

(** [tensor.argmax().item()]; the call raises on a tensor with no entry. *)
Definition argmax (row : list Q) : option nat :=
  match row with
  | [] => None
  | x :: row' => Some (argmax_from x 0 1 row')
  end.

End Tensor.

Definition tags : list string := ["robot"; "sensor"; "healthcare"; "technology"].

Section Autotag.

(** The upload, the decoded picture, and the library calls of the handler.
    [Image_open] is [Image.open(file.stream).convert("RGB")], with whatever
    exception PIL raises on an upload it cannot read. [clip_probs] is lines
    81 to 86 on a machine where the pretrained CLIP model is at hand and
    runs: processor and model on the four texts and the picture, then
    [softmax(dim=1)]; it gives one probability per text, in the order of the
    list. The probabilities are finite floating point numbers, read here as
    the rationals they denote. *)
Context {upload image : Type}.
Variable Image_open : upload → result image.
Variable clip_probs : image → Q * Q * Q * Q.

Definition probs_row (p : Q * Q * Q * Q) : list Q :=
  match p with (p0, p1, p2, p3) => [p0; p1; p2; p3] end.

Definition autotag (file : option upload) : result reply :=
  match file with
  | None => Ok (Error "No image uploaded.", 400%Z)
  | Some f =>
      match Image_open f with
      | Raise e => Raise e
      | Ok image =>
          let probs := probs_row (clip_probs image) in
          match Tensor.argmax probs with
          | None => Raise (RuntimeError "argmax of an empty tensor")
          | Some i =>
              match tags !! i with
              | Some top_tag => Ok (Label top_tag, 200%Z)
              | None => Raise (IndexError "list index out of range")
              end
          end
      end
  end.

End Autotag.


(** Unfolds a run of the handler down to the tables. *)
Ltac run_ask :=
  unfold ask, bind, try_except, ret, ChatCompletion_create,
    Sql.select_cache, Sql.select_tech, Sql.insert_cache,
    outcome, final_db, trace in *;
  simpl in *.

(** * Facts about text *)

Module TextFacts.
Import Text.

Lemma app_cons c s t : String c s +:+ t = String c (s +:+ t).
Proof. reflexivity. Qed.

Lemma app_empty_l s : "" +:+ s = s.
Proof. reflexivity. Qed.

Lemma app_empty_r s : s +:+ "" = s.
Proof. induction s as [|c s IH]; [done|]. by rewrite app_cons, IH. Qed.

Lemma app_assoc s t u : (s +:+ t) +:+ u = s +:+ t +:+ u.
Proof. induction s as [|c s IH]; [done|]. by rewrite !app_cons, IH. Qed.

(** One unfolding of [pattern_compare] on a non-empty pattern. *)
Lemma like_cons c p s :
  pattern_compare (String c p) s =
    if Ascii.eqb c "%" then
      pattern_compare p s || match s with EmptyString => false | String _ s' => pattern_compare (String c p) s' end
    else if Ascii.eqb c "_" then
      match s with EmptyString => false | String _ s' => pattern_compare p s' end
    else
      match s with
      | EmptyString => false
      | String d s' => Ascii.eqb (fold_char c) (fold_char d) && pattern_compare p s'
      end.
Proof.
  simpl. destruct (Ascii.eqb c "%"); [by destruct s|].
  by destruct (Ascii.eqb c "_").
Qed.

Lemma like_empty s : pattern_compare "" s = true ↔ s = "".
Proof. by destruct s. Qed.

(** [%] followed by [p] matches [s] exactly when [p] matches a suffix. *)
Lemma like_percent p s :
  pattern_compare (String "%" p) s = true ↔ ∃ s1 s2, s = s1 +:+ s2 ∧ pattern_compare p s2 = true.
Proof.
  induction s as [|d s IH]; rewrite like_cons; simpl.
  - rewrite orb_false_r. split.
    + intros H. by exists "", "".
    + intros (s1 & s2 & E & H). destruct s1; [|done]. by destruct s2.
  - rewrite orb_true_iff, IH. split.
    + intros [H|(s1 & s2 & -> & H)].
      * by exists "", (String d s).
      * by exists (String d s1), s2.
    + intros (s1 & s2 & E & H). destruct s1 as [|d' s1].
      * left. rewrite app_empty_l in E. by subst.
      * right. rewrite app_cons in E. injection E as -> ->. by exists s1, s2.
Qed.

(** Matching is compositional: a pattern [p1 p2] matches the texts that
    split into a match of [p1] and a match of [p2]. *)
Lemma like_app p1 p2 s :
  pattern_compare (p1 +:+ p2) s = true ↔
  ∃ s1 s2, s = s1 +:+ s2 ∧ pattern_compare p1 s1 = true ∧ pattern_compare p2 s2 = true.
Proof.
  revert s. induction p1 as [|c p1 IH]; intros s.
  - rewrite app_empty_l. split.
    + intros H. by exists "", s.
    + intros (s1 & s2 & -> & H1 & H2). apply like_empty in H1. by subst.
  - rewrite app_cons. destruct (Ascii.eqb c "%") eqn:Ec.
    + apply Ascii.eqb_eq in Ec. subst c. rewrite like_percent. split.
      * intros (a & b & -> & H). apply IH in H as (b1 & b2 & -> & H1 & H2).
        exists (a +:+ b1), b2. rewrite app_assoc. split_and!; [done| |done].
        apply like_percent. by exists a, b1.
      * intros (s1 & s2 & -> & H1 & H2).
        apply like_percent in H1 as (a & b1 & -> & H1).
        exists a, (b1 +:+ s2). rewrite app_assoc. split; [done|].
        apply IH. by exists b1, s2.
    + rewrite like_cons, Ec. destruct (Ascii.eqb c "_") eqn:Eu.
      * split.
        -- destruct s as [|d s]; [done|]. intros H.
           apply IH in H as (s1 & s2 & -> & H1 & H2).
           exists (String d s1), s2. split_and!; [done| |done].
           by rewrite like_cons, Ec, Eu.
        -- intros (s1 & s2 & -> & H1 & H2). rewrite like_cons, Ec, Eu in H1.
           destruct s1 as [|d s1]; [done|]. rewrite app_cons.
           apply IH. by exists s1, s2.
      * split.
        -- destruct s as [|d s]; [done|]. intros H.
           apply andb_true_iff in H as [Hc H].
           apply IH in H as (s1 & s2 & -> & H1 & H2).
           exists (String d s1), s2. split_and!; [done| |done].
           rewrite like_cons, Ec, Eu. by rewrite Hc.
        -- intros (s1 & s2 & -> & H1 & H2). rewrite like_cons, Ec, Eu in H1.
           destruct s1 as [|d s1]; [done|]. rewrite app_cons.
           apply andb_true_iff in H1 as [Hc H1]. rewrite Hc. simpl.
           apply IH. by exists s1, s2.
Qed.

Lemma like_any s : pattern_compare "%" s = true.
Proof. apply like_percent. exists s, "". by rewrite app_empty_r. Qed.

(** The pattern [%q%] matches the texts with a part that [q] matches. *)
Lemma like_inside q s :
  pattern_compare ("%" +:+ q +:+ "%") s = true ↔
  ∃ pre mid post, s = pre +:+ mid +:+ post ∧ pattern_compare q mid = true.
Proof.
  change ("%" +:+ q +:+ "%") with (String "%" (q +:+ "%")).
  rewrite like_percent. split.
  - intros (pre & rest & -> & H). apply like_app in H as (mid & post & -> & H & _).
    by exists pre, mid, post.
  - intros (pre & mid & post & -> & H). exists pre, (mid +:+ post). split; [done|].
    apply like_app. exists mid, post. split_and!; [done|done|apply like_any].
Qed.

(** A pattern without wildcard matches the texts equal to it up to the
    case of ASCII letters. *)
Lemma like_literal q s :
  wildcard_free q = true → (pattern_compare q s = true ↔ lower q = lower s).
Proof.
  revert s. induction q as [|c q IH]; intros s Hq.
  - destruct s; simpl; split; done.
  - simpl in Hq. apply andb_true_iff in Hq as [Hc Hq].
    unfold is_wildcard in Hc. apply negb_true_iff, orb_false_iff in Hc as [Ec Eu].
    rewrite like_cons, Ec, Eu. destruct s as [|d s]; [done|]. simpl.
    rewrite andb_true_iff, Ascii.eqb_eq, (IH s Hq). split.
    + by intros [-> ->].
    + intros E. by injection E.
Qed.

Lemma lower_app s t : lower (s +:+ t) = lower s +:+ lower t.
Proof. induction s as [|c s IH]; [done|]. rewrite app_cons. simpl. by rewrite IH, app_cons. Qed.

Lemma lower_app_inv s a b :
  lower s = a +:+ b → ∃ s1 s2, s = s1 +:+ s2 ∧ lower s1 = a ∧ lower s2 = b.
Proof.
  revert s. induction a as [|c a IH]; intros s E.
  - by exists "", s.
  - destruct s as [|d s]; [done|]. rewrite app_cons in E. simpl in E.
    injection E as Ec E. apply IH in E as (s1 & s2 & -> & <- & <-).
    exists (String d s1), s2. split_and!; [done| |done]. simpl. by rewrite Ec.
Qed.

Lemma starts_with_iff q s : starts_with q s = true ↔ ∃ post, s = q +:+ post.
Proof.
  revert s. induction q as [|c q IH]; intros s.
  - split; [|done]. intros _. by exists s.
  - destruct s as [|d s]; simpl.
    + split; [done|]. by intros [post E].
    + rewrite andb_true_iff, Ascii.eqb_eq, IH. split.
      * intros [-> [post ->]]. by exists post.
      * intros [post E]. rewrite app_cons in E. injection E as -> ->. eauto.
Qed.

(** [contains] decides literal containment. *)
Lemma contains_iff q s :
  contains q s = true ↔ ∃ pre post, s = pre +:+ q +:+ post.
Proof.
  induction s as [|d s IH]; simpl; rewrite orb_true_iff, starts_with_iff.
  - split.
    + intros [[post E]|]; [|done]. by exists "", post.
    + intros (pre & post & E). left. destruct pre; [|done]. by exists post.
  - rewrite IH. split.
    + intros [[post E]|(pre & post & ->)].
      * by exists "", post.
      * by exists (String d pre), post.
    + intros (pre & post & E). destruct pre as [|d' pre].
      * left. by exists post.
      * right. rewrite app_cons in E. injection E as -> ->. by exists pre, post.
Qed.

(** The table and the arithmetic agree on every character. *)
Lemma lowercase_char_fold c : lowercase_char c = fold_char c.
Proof. by destruct c as [[] [] [] [] [] [] [] []]. Qed.

Lemma lowercase_lower s : lowercase s = lower s.
Proof.
  induction s as [|c s IH]; [done|]. simpl. by rewrite IH, lowercase_char_fold.
Qed.

(** For a query without wildcard, the pattern [%q%] matches the texts that
    contain the query once both are folded to lower case. *)
Lemma pattern_inside_literal q s :
  wildcard_free q = true →
  pattern_compare ("%" +:+ q +:+ "%") s = contains (lowercase q) (lowercase s).
Proof.
  intros Hq. rewrite !lowercase_lower. apply eq_true_iff_eq.
  rewrite like_inside, contains_iff. split.
  - intros (pre & mid & post & -> & H). apply (like_literal _ _ Hq) in H.
    exists (lower pre), (lower post). by rewrite !lower_app, H.
  - intros (a & c & E). apply lower_app_inv in E as (pre & rest & -> & <- & E).
    apply lower_app_inv in E as (mid & post & -> & E & <-).
    exists pre, mid, post. split; [done|]. by apply like_literal.
Qed.

(** Strings as C reads them, and their length in bytes. *)
Lemma c_str_nul_free s : nul_free s = true → c_str s = s.
Proof.
  induction s as [|c s IH]; [done|]. simpl.
  intros [Hc Hs]%andb_true_iff. apply negb_true_iff in Hc. by rewrite Hc, IH.
Qed.

Lemma nul_free_app s t : nul_free (s +:+ t) = nul_free s && nul_free t.
Proof.
  induction s as [|c s IH]; [done|]. rewrite app_cons. simpl.
  by rewrite IH, andb_assoc.
Qed.

Lemma c_str_app s t : nul_free s = true → c_str (s +:+ t) = s +:+ c_str t.
Proof.
  induction s as [|c s IH]; [done|]. rewrite app_cons. simpl.
  intros [Hc Hs]%andb_true_iff. apply negb_true_iff in Hc.
  by rewrite Hc, IH, app_cons.
Qed.

Lemma utf8_bytes_app s t : utf8_bytes (s +:+ t) = (utf8_bytes s + utf8_bytes t)%N.
Proof.
  induction s as [|c s IH]; [done|]. rewrite app_cons. simpl. rewrite IH. lia.
Qed.

(** The pattern the handler builds from a prompt. *)
Lemma utf8_bytes_pattern q :
  utf8_bytes ("%" +:+ q +:+ "%") = (utf8_bytes q + 2)%N.
Proof. rewrite !utf8_bytes_app. simpl. lia. Qed.

Lemma c_str_pattern q :
  nul_free q = true → c_str ("%" +:+ q +:+ "%") = "%" +:+ q +:+ "%".
Proof.
  intros Hq. apply c_str_nul_free. by rewrite !nul_free_app, Hq.
Qed.

End TextFacts.

(** * Facts about the search *)

Lemma like_short pat s :
  (Text.utf8_bytes pat <= 50000)%N →
  Sql.like pat s = Ok (Text.pattern_compare (Text.c_str pat) (Text.c_str s)).
Proof.
  intros H. unfold Sql.like, Sql.SQLITE_MAX_LIKE_PATTERN_LENGTH.
  by destruct (N.ltb_spec 50000 (Text.utf8_bytes pat)); [lia|].
Qed.

Lemma like_long pat s :
  (50000 < Text.utf8_bytes pat)%N → Sql.like pat s = Raise Sql.too_complex.
Proof.
  intros H. unfold Sql.like, Sql.SQLITE_MAX_LIKE_PATTERN_LENGTH.
  by destruct (N.ltb_spec 50000 (Text.utf8_bytes pat)); [|lia].
Qed.

(** A pattern within the limit: the scan keeps the rows the pattern matches
    on name or description. *)
Lemma search_short pat t :
  (Text.utf8_bytes pat <= 50000)%N →
  Sql.search pat t =
    Ok (map (λ r, (name r, description r))
          (List.filter (λ r,
             Text.pattern_compare (Text.c_str pat) (Text.c_str (name r)) ||
             Text.pattern_compare (Text.c_str pat) (Text.c_str (description r))) t)).
Proof.
  intros H. induction t as [|r t IH]; [done|].
  cbn [Sql.search List.filter]. rewrite IH. unfold Sql.where_row.
  rewrite !(like_short pat _ H).
  by destruct (Text.pattern_compare _ (Text.c_str (name r)));
    [|destruct (Text.pattern_compare _ (Text.c_str (description r)))].
Qed.

(** A pattern over the limit: the first row ends the statement. *)
Lemma search_long pat t :
  (50000 < Text.utf8_bytes pat)%N → t ≠ [] →
  Sql.search pat t = Raise Sql.too_complex.
Proof.
  intros H Ht. destruct t as [|r t]; [done|].
  cbn [Sql.search]. unfold Sql.where_row. by rewrite (like_long pat _ H).
Qed.

(** * Facts about the handlers *)

(** A hit returns the cached row and does nothing else. *)
Lemma ask_hit llm p r db c :
  p ≠ "" → cache db = Some c → c !! p = Some r →
  ask llm (Some p) db = (Ok (Response r, 200%Z), db, [CacheSelect p]).
Proof.
  intros Hp Hc Hr. destruct p as [|ch p]; [done|].
  destruct db as [oc ot w]. simpl in Hc. subst oc.
  run_ask. by rewrite Hr.
Qed.

(** A request on a file without table [cache] stops at the first SELECT. *)
Lemma ask_no_cache_table llm p db :
  p ≠ "" → cache db = None →
  ask llm (Some p) db = (Raise (Sql.no_such_table "cache"), db, [CacheSelect p]).
Proof.
  intros Hp Hc. destruct p as [|ch p]; [done|].
  destruct db as [oc ot w]. simpl in Hc. subst oc. by run_ask.
Qed.

(** A miss on a file without table [tech] stops at the second SELECT. *)
Lemma ask_no_tech_table llm p db c :
  p ≠ "" → cache db = Some c → c !! p = None → tech db = None →
  ask llm (Some p) db =
    (Raise (Sql.no_such_table "tech"), db,
     [CacheSelect p; TechSelect ("%" +:+ p +:+ "%")]).
Proof.
  intros Hp Hc Hr Ht. destruct p as [|ch p]; [done|].
  destruct db as [oc ot w]. simpl in Hc, Ht. subst oc ot. run_ask.
  by rewrite Hr.
Qed.

(** A miss whose knowledge search raises stops there too. *)
Lemma ask_search_raises llm p db c t e :
  p ≠ "" → cache db = Some c → c !! p = None → tech db = Some t →
  Sql.search ("%" +:+ p +:+ "%") t = Raise e →
  ask llm (Some p) db =
    (Raise e, db, [CacheSelect p; TechSelect ("%" +:+ p +:+ "%")]).
Proof.
  intros Hp Hc Hr Ht Hs. destruct p as [|ch p]; [done|].
  destruct db as [oc ot w]. simpl in Hc, Ht. subst oc ot. run_ask.
  rewrite Hr. simpl. by rewrite Hs.
Qed.

(** A miss with matching knowledge rows: the formatted rows are written and
    returned. *)
Lemma ask_knowledge llm p db c t rows :
  p ≠ "" → cache db = Some c → c !! p = None → tech db = Some t →
  Sql.search ("%" +:+ p +:+ "%") t = Ok rows → rows ≠ [] →
  let response := Text.join Text.newline (map format_row rows) in
  ask llm (Some p) db =
    if writable db then
      (Ok (Response response, 200%Z),
       DbFile (Some (<[p := response]> c)) (tech db) (writable db),
       [CacheSelect p; TechSelect ("%" +:+ p +:+ "%"); CacheInsert p response])
    else
      (Raise Sql.readonly, db,
       [CacheSelect p; TechSelect ("%" +:+ p +:+ "%"); CacheInsert p response]).
Proof.
  intros Hp Hc Hr Ht Hs Hrows response. subst response.
  destruct p as [|ch p]; [done|].
  destruct db as [oc ot w]. simpl in Hc, Ht. subst oc ot. run_ask.
  rewrite Hr. simpl. rewrite Hs. simpl.
  destruct rows as [|row rows]; [done|]. simpl.
  destruct w; simpl; [|done]. by rewrite Hr.
Qed.

(** A miss without matching knowledge row: the completion, or the
    placeholder made from its failure, is written and returned. *)
Lemma ask_generative llm p db c t :
  p ≠ "" → cache db = Some c → c !! p = None → tech db = Some t →
  Sql.search ("%" +:+ p +:+ "%") t = Ok [] →
  let response :=
    match llm p with
    | Content text => text
    | Failure details => "[Error calling model: " +:+ details +:+ "]"
    end in
  ask llm (Some p) db =
    if writable db then
      (Ok (Response response, 200%Z),
       DbFile (Some (<[p := response]> c)) (tech db) (writable db),
       [CacheSelect p; TechSelect ("%" +:+ p +:+ "%"); ChatCompletion p;
        CacheInsert p response])
    else
      (Raise Sql.readonly, db,
       [CacheSelect p; TechSelect ("%" +:+ p +:+ "%"); ChatCompletion p;
        CacheInsert p response]).
Proof.
  intros Hp Hc Hr Ht Hrows response. subst response.
  destruct p as [|ch p]; [done|].
  destruct db as [oc ot w]. simpl in Hc, Ht. subst oc ot. run_ask.
  rewrite Hr. simpl. rewrite Hrows. simpl.
  destruct (llm (String ch p)); simpl;
    destruct w; simpl; try done; by rewrite Hr.
Qed.

(** Every run of the handler on a prompt that is not empty, by the state of
    the file. *)
Lemma ask_run llm p db :
  p ≠ "" →
  ask llm (Some p) db =
    match cache db with
    | None => (Raise (Sql.no_such_table "cache"), db, [CacheSelect p])
    | Some c =>
        match c !! p with
        | Some r => (Ok (Response r, 200%Z), db, [CacheSelect p])
        | None =>
            match tech db with
            | None =>
                (Raise (Sql.no_such_table "tech"), db,
                 [CacheSelect p; TechSelect ("%" +:+ p +:+ "%")])
            | Some t =>
                match Sql.search ("%" +:+ p +:+ "%") t with
                | Raise e =>
                    (Raise e, db, [CacheSelect p; TechSelect ("%" +:+ p +:+ "%")])
                | Ok rows =>
                    let response :=
                      match rows with
                      | [] =>
                          match llm p with
                          | Content text => text
                          | Failure details =>
                              "[Error calling model: " +:+ details +:+ "]"
                          end
                      | _ :: _ => Text.join Text.newline (map format_row rows)
                      end in
                    let calls :=
                      match rows with [] => [ChatCompletion p] | _ :: _ => [] end in
                    if writable db then
                      (Ok (Response response, 200%Z),
                       DbFile (Some (<[p := response]> c)) (tech db) (writable db),
                       [CacheSelect p; TechSelect ("%" +:+ p +:+ "%")] ++ calls ++
                       [CacheInsert p response])
                    else
                      (Raise Sql.readonly, db,
                       [CacheSelect p; TechSelect ("%" +:+ p +:+ "%")] ++ calls ++
                       [CacheInsert p response])
                end
            end
        end
    end.
Proof.
  intros Hp. destruct (cache db) as [c|] eqn:Hc; [|by apply ask_no_cache_table].
  destruct (c !! p) as [r|] eqn:Hr; [by eapply ask_hit|].
  destruct (tech db) as [t|] eqn:Ht; [|by eapply ask_no_tech_table].
  destruct (Sql.search ("%" +:+ p +:+ "%") t) as [[|row rows]|e] eqn:Hs.
  - by rewrite (ask_generative llm p db c t Hp Hc Hr Ht Hs), Ht.
  - by rewrite (ask_knowledge llm p db c t _ Hp Hc Hr Ht Hs), Ht.
  - by eapply ask_search_raises.
Qed.

Lemma ask_no_prompt llm prompt db :
  prompt = None ∨ prompt = Some "" →
  ask llm prompt db = (Ok (Error "Prompt is required", 400%Z), db, []).
Proof. by intros [->| ->]. Qed.

Lemma prompt_cases (prompt : option string) :
  (prompt = None ∨ prompt = Some "") ∨ ∃ p, prompt = Some p ∧ p ≠ "".
Proof.
  destruct prompt as [[|ch p]|]; [by left; right| |by left; left].
  right. by exists (String ch p).
Qed.

(** A request keeps the rows of the cache, adds at most the row of its own
    prompt, and leaves the knowledge table and the writability alone. *)
Lemma ask_store llm prompt db :
  tech (final_db (ask llm prompt db)) = tech db ∧
  writable (final_db (ask llm prompt db)) = writable db ∧
  (cache db = None → cache (final_db (ask llm prompt db)) = None) ∧
  (∀ c, cache db = Some c →
     ∃ c', cache (final_db (ask llm prompt db)) = Some c' ∧ c ⊆ c' ∧
           ∀ q, Some q ≠ prompt → c' !! q = c !! q).
Proof.
  destruct (prompt_cases prompt) as [H|(p & -> & Hp)].
  { rewrite (ask_no_prompt _ _ _ H). unfold final_db. simpl.
    split_and!; [done..|]. intros c Hc. by exists c. }
  rewrite (ask_run llm p db Hp).
  destruct (cache db) as [c|] eqn:Hc; unfold final_db; simpl.
  2:{ by rewrite Hc. }
  destruct (c !! p) as [r|] eqn:Hr; simpl.
  { rewrite Hc. split_and!; [done..|]. intros ? [= <-]. by exists c. }
  destruct (tech db) as [t|] eqn:Ht; simpl.
  2:{ rewrite Hc, Ht. split_and!; [done..|]. intros ? [= <-]. by exists c. }
  destruct (Sql.search _ t) as [rows|e]; simpl.
  2:{ rewrite Hc, Ht. split_and!; [done..|]. intros ? [= <-]. by exists c. }
  destruct (writable db) eqn:Hw; simpl.
  - split_and!; [done..|]. intros ? [= <-]. eexists. split; [done|]. split.
    + by apply insert_subseteq.
    + intros q Hq. apply lookup_insert_ne. congruence.
  - rewrite Hc, Ht, Hw. split_and!; [done..|]. intros ? [= <-]. by exists c.
Qed.

(** An answered request leaves its answer in the cache. *)
Lemma ask_answer_cached llm p r db db1 tr :
  ask llm (Some p) db = (Ok (Response r, 200%Z), db1, tr) →
  p ≠ "" ∧ ∃ c, cache db1 = Some c ∧ c !! p = Some r.
Proof.
  intros H. assert (Hp : p ≠ "") by by destruct p.
  split; [done|]. rewrite (ask_run llm p db Hp) in H.
  destruct (cache db) as [c|] eqn:Hc; [|done].
  destruct (c !! p) as [r0|] eqn:Hr.
  { injection H as -> <- _. eauto. }
  destruct (tech db) as [t|]; [|done].
  destruct (Sql.search _ t) as [rows|e]; [|done]. simpl in H.
  destruct (writable db); [|done].
  injection H as <- <- _. simpl. eexists. split; [done|]. apply lookup_insert_eq.
Qed.

(** No request removes or changes a row of the cache. *)
Lemma ask_keeps_rows llm prompt db c p r :
  cache db = Some c → c !! p = Some r →
  ∃ c', cache (final_db (ask llm prompt db)) = Some c' ∧ c' !! p = Some r.
Proof.
  intros Hc Hr. destruct (ask_store llm prompt db) as (_ & _ & _ & H).
  destruct (H c Hc) as (c' & Hc' & Hsub & _). exists c'. split; [done|].
  by eapply lookup_weaken.
Qed.

Lemma evolves_keeps_rows db db' c p r :
  evolves db db' → cache db = Some c → c !! p = Some r →
  ∃ c', cache db' = Some c' ∧ c' !! p = Some r.
Proof.
  induction 1 as [db|db db' llm prompt _ IH|db db' t w _ IH]; intros Hc Hr.
  - eauto.
  - destruct (IH Hc Hr) as (c' & Hc' & Hr'). by eapply ask_keeps_rows.
  - destruct (IH Hc Hr) as (c' & Hc' & Hr'). eauto.
Qed.

(** What the two SELECTs say about the file when they return. *)
Lemma select_cache_ok p db o :
  outcome (Sql.select_cache p db) = Ok o → ∃ c, cache db = Some c ∧ c !! p = o.
Proof.
  unfold outcome, Sql.select_cache. destruct (cache db) as [c|]; simpl; [|done].
  intros [= <-]. eauto.
Qed.

Lemma select_tech_ok pat db rows :
  outcome (Sql.select_tech pat db) = Ok rows →
  ∃ t, tech db = Some t ∧ Sql.search pat t = Ok rows.
Proof.
  unfold outcome, Sql.select_tech. destruct (tech db) as [t|]; simpl; [|done].
  intros H. eauto.
Qed.

(** The handler writes a prompt to the cache only after it missed it. *)
Lemma ask_insert_after_miss llm prompt db c p r :
  cache db = Some c → CacheInsert p r ∈ trace (ask llm prompt db) →
  c !! p = None.
Proof.
  intros Hc. destruct (prompt_cases prompt) as [H|(q & -> & Hq)].
  { rewrite (ask_no_prompt _ _ _ H). by intros ?%elem_of_nil. }
  rewrite (ask_run llm q db Hq), Hc. unfold trace.
  destruct (c !! q) as [r0|] eqn:Hr; simpl.
  { rewrite !elem_of_cons, elem_of_nil. intros [?|[]]. discriminate. }
  destruct (tech db) as [t|]; simpl.
  2:{ rewrite !elem_of_cons, elem_of_nil. intros [?|[?|[]]]; discriminate. }
  destruct (Sql.search _ t) as [[|row rows]|e]; simpl.
  - destruct (writable db); simpl; rewrite !elem_of_cons, elem_of_nil;
      intros [?|[?|[?|[?|[]]]]]; congruence.
  - destruct (writable db); simpl; rewrite !elem_of_cons, elem_of_nil;
      intros [?|[?|[?|[]]]]; congruence.
  - rewrite !elem_of_cons, elem_of_nil. intros [?|[?|[]]]; discriminate.
Qed.

(** * The claims *)

(** C10. An empty string prompt is treated as an absent one: the handler
    answers 400 with "Prompt is required" and makes no call at all (no cache
    read, no knowledge search, no completion, no cache write); the store is
    as it was. *)
Theorem ask_empty_prompt_rejected :
  ∀ llm db,
    ask llm (Some "") db = (Ok (Error "Prompt is required", 400%Z), db, []) ∧
    ask llm (Some "") db = ask llm None db.
Proof. intros llm db. split; reflexivity. Qed.

(** C9. [init_db] creates the file with an empty [cache] table and a [tech]
    table holding the built-in list only when there is no file; a file that
    exists is left as it is, whatever it holds, so running [init_db] twice
    is running it once. *)
Theorem init_db_idempotent :
  init_db None = Some (DbFile (Some ∅) (Some HEALTHCARE_TECH) true) ∧
  (∀ db, init_db (Some db) = Some db) ∧
  (∀ fs, init_db (init_db fs) = init_db fs).
Proof.
  split_and!.
  - reflexivity.
  - done.
  - by intros [db|].
Qed.

(** C1. Once a request for prompt [P] was answered with [R], every later
    request for [P] is answered with [R] from the cache: the only call is the
    cache SELECT (no knowledge search, no completion, no cache write) and the
    store is not changed, whatever requests ran in between and however the
    knowledge table or the completion service changed. *)
Theorem ask_cache_hit_idempotent :
  ∀ llm P R db db1 tr,
    ask llm (Some P) db = (Ok (Response R, 200%Z), db1, tr) →
    ∀ db2 llm',
      evolves db1 db2 →
      ask llm' (Some P) db2 = (Ok (Response R, 200%Z), db2, [CacheSelect P]).
Proof.
  intros llm P R db db1 tr H db2 llm' Hev.
  apply ask_answer_cached in H as (HP & c & Hc & HR).
  destruct (evolves_keeps_rows _ _ _ _ _ Hev Hc HR) as (c' & Hc' & HR').
  by eapply ask_hit.
Qed.

Lemma ask_cache_hit_idempotent_witness :
  let db := DbFile (Some ∅) (Some HEALTHCARE_TECH) true in
  let db1 := DbFile (Some {["quantum gravity" := "42"]}) (Some HEALTHCARE_TECH) true in
  let db2 := final_db (ask (λ _, Failure "down") (Some "OpenEMR")
                         (DbFile (cache db1) (Some []) true)) in
  ask (λ _, Failure "down") (Some "quantum gravity") db2 =
    (Ok (Response "42", 200%Z), db2, [CacheSelect "quantum gravity"]).
Proof.
  intros db db1 db2.
  apply (ask_cache_hit_idempotent (λ _, Content "42") "quantum gravity" "42" db db1
           [CacheSelect "quantum gravity"; TechSelect "%quantum gravity%";
            ChatCompletion "quantum gravity"; CacheInsert "quantum gravity" "42"]).
  - vm_compute. reflexivity.
  - apply evolves_ask, evolves_env, evolves_refl.
Defined.

(** C2. When the prompt misses the cache and the knowledge search returns at
    least one row, the completion service is not called during the request,
    and nothing the handler does depends on that service. *)
Theorem knowledge_precedes_generative :
  ∀ llm p db rows,
    outcome (Sql.select_cache p db) = Ok None →
    outcome (Sql.select_tech ("%" +:+ p +:+ "%") db) = Ok rows →
    rows ≠ [] →
    (∀ q, ChatCompletion q ∉ trace (ask llm (Some p) db)) ∧
    (∀ llm', ask llm' (Some p) db = ask llm (Some p) db).
Proof.
  intros llm p db rows Hc Ht Hrows.
  apply select_cache_ok in Hc as (c & Hc & Hr).
  apply select_tech_ok in Ht as (t & Ht & Hs).
  destruct (decide (p = "")) as [->|Hp].
  { split; [|done]. intros q. simpl. apply not_elem_of_nil. }
  split.
  - intros q. rewrite (ask_knowledge llm p db c t rows Hp Hc Hr Ht Hs Hrows).
    destruct (writable db); unfold trace; simpl;
      rewrite !elem_of_cons, elem_of_nil; intros [?|[?|[?|[]]]]; discriminate.
  - intros llm'. by rewrite !(ask_knowledge _ p db c t rows Hp Hc Hr Ht Hs Hrows).
Qed.

Lemma knowledge_precedes_generative_witness :
  let db := DbFile (Some ∅) (Some HEALTHCARE_TECH) true in
  (∀ q, ChatCompletion q ∉ trace (ask (λ _, Content "42") (Some "EMR") db)) ∧
  (∀ llm', ask llm' (Some "EMR") db = ask (λ _, Content "42") (Some "EMR") db).
Proof.
  intros db.
  apply (knowledge_precedes_generative (λ _, Content "42") "EMR" db
           [("OpenMRS", "Customizable EMR system."); 
            ("OpenEMR", "Open-source EHR and practice management.")]).
  - reflexivity.
  - vm_compute. reflexivity.
  - discriminate.
Defined.

(** C4, counterexample. On a file that cannot be written, a request whose
    completion call fails does not return success and nothing is persisted:
    the placeholder is made, the INSERT raises, and the request ends with
    that exception, the cache as empty as before. *)
Lemma generative_failure_lost_on_read_only :
  let db := DbFile (Some ∅) (Some HEALTHCARE_TECH) false in
  let llm := λ _ : string, Failure "Connection refused" in
  ask llm (Some "quantum gravity") db =
    (Raise (OperationalError "attempt to write a readonly database"), db,
     [CacheSelect "quantum gravity"; TechSelect "%quantum gravity%";
      ChatCompletion "quantum gravity";
      CacheInsert "quantum gravity" "[Error calling model: Connection refused]"]) ∧
  (∀ rep, outcome (ask llm (Some "quantum gravity") db) ≠ Ok rep) ∧
  cache (final_db (ask llm (Some "quantum gravity") db)) = Some ∅.
Proof.
  split_and!; [vm_compute; reflexivity| |vm_compute; reflexivity].
  intros rep. vm_compute. discriminate.
Qed.

(** C4, amended. When a request reaches the completion call and the call
    raises, that exception does not leave the handler: the response is the
    placeholder "[Error calling model: <details>]", which the handler then
    writes to the cache. If the store takes the write, the request answers
    200 with the placeholder and the placeholder is the cached value of the
    prompt afterwards; if it does not, the request ends with the storage
    exception and the store is as it was. *)
Theorem generative_failure_degrades :
  ∀ llm p details db c t,
    p ≠ "" →
    cache db = Some c → c !! p = None →
    tech db = Some t → Sql.search ("%" +:+ p +:+ "%") t = Ok [] →
    llm p = Failure details →
    let placeholder := "[Error calling model: " +:+ details +:+ "]" in
    (∀ msg, outcome (ask llm (Some p) db) ≠ Raise (OpenAIError msg)) ∧
    CacheInsert p placeholder ∈ trace (ask llm (Some p) db) ∧
    (writable db = true →
     outcome (ask llm (Some p) db) = Ok (Response placeholder, 200%Z) ∧
     ∃ c', cache (final_db (ask llm (Some p) db)) = Some c' ∧
           c' !! p = Some placeholder) ∧
    (writable db = false →
     outcome (ask llm (Some p) db) = Raise Sql.readonly ∧
     final_db (ask llm (Some p) db) = db).
Proof.
  intros llm p details db c t Hp Hc Hr Ht Hs Hllm placeholder.
  rewrite (ask_generative llm p db c t Hp Hc Hr Ht Hs), Hllm.
  fold placeholder. split_and!.
  - intros msg. by destruct (writable db).
  - destruct (writable db); unfold trace; simpl;
      rewrite !elem_of_cons; by do 3 right; left.
  - intros ->. split; [done|]. unfold final_db. simpl.
    eexists. split; [done|]. apply lookup_insert_eq.
  - by intros ->.
Qed.

Lemma generative_failure_degrades_witness :
  let db := DbFile (Some ∅) (Some HEALTHCARE_TECH) true in
  let llm := λ _ : string, Failure "Connection refused" in
  let p := "quantum gravity" in
  let placeholder := "[Error calling model: Connection refused]" in
  (∀ msg, outcome (ask llm (Some p) db) ≠ Raise (OpenAIError msg)) ∧
  CacheInsert p placeholder ∈ trace (ask llm (Some p) db) ∧
  outcome (ask llm (Some p) db) = Ok (Response placeholder, 200%Z) ∧
  (∃ c', cache (final_db (ask llm (Some p) db)) = Some c' ∧
         c' !! p = Some placeholder) ∧
  outcome (ask llm (Some p) (DbFile (Some ∅) (Some HEALTHCARE_TECH) false))
    = Raise Sql.readonly.
Proof.
  intros db llm p placeholder.
  assert (Hp : p ≠ "") by discriminate.
  assert (Hs : Sql.search ("%" +:+ p +:+ "%") HEALTHCARE_TECH = Ok [])
    by (vm_compute; reflexivity).
  destruct (generative_failure_degrades llm p "Connection refused" db ∅
              HEALTHCARE_TECH Hp eq_refl eq_refl eq_refl Hs eq_refl)
    as (H1 & H2 & H3 & _).
  destruct (generative_failure_degrades llm p "Connection refused"
              (DbFile (Some ∅) (Some HEALTHCARE_TECH) false) ∅
              HEALTHCARE_TECH Hp eq_refl (lookup_empty p) eq_refl Hs eq_refl)
    as (_ & _ & _ & H4).
  split; [exact H1|]. split; [exact H2|].
  split; [exact (proj1 (H3 eq_refl))|].
  split; [exact (proj2 (H3 eq_refl))|]. exact (proj1 (H4 eq_refl)).
Defined.

(** The join of the handler is the library's [concat]. *)
Lemma join_concat sep parts : Text.join sep parts = String.concat sep parts.
Proof.
  induction parts as [|x [|y parts] IH]; [done|done|].
  change (Text.join sep (x :: y :: parts))
    with (x +:+ sep +:+ Text.join sep (y :: parts)).
  by rewrite IH.
Qed.

(** C7. When the prompt misses the cache and the knowledge search returns a
    non-empty list of rows, the response is the rows in the order the search
    returned them, each as "name: description", with one line feed
    character between two rows and none after the last. This is what the
    handler writes to the cache; every reply of the request carries it with
    status 200, and there is a reply when the store takes the write. *)
Theorem knowledge_response_format :
  ∀ llm p db rows,
    p ≠ "" →
    outcome (Sql.select_cache p db) = Ok None →
    outcome (Sql.select_tech ("%" +:+ p +:+ "%") db) = Ok rows →
    rows ≠ [] →
    let response :=
      String.concat (String (Ascii.ascii_of_nat 10) EmptyString)
        (map (λ r, String.append r.1 (String.append ": " r.2)) rows) in
    CacheInsert p response ∈ trace (ask llm (Some p) db) ∧
    (∀ rep, outcome (ask llm (Some p) db) = Ok rep →
            rep = (Response response, 200%Z)) ∧
    (writable db = true →
     outcome (ask llm (Some p) db) = Ok (Response response, 200%Z)).
Proof.
  intros llm p db rows Hp Hc Ht Hrows response.
  apply select_cache_ok in Hc as (c & Hc & Hr).
  apply select_tech_ok in Ht as (t & Ht & Hs).
  rewrite (ask_knowledge llm p db c t rows Hp Hc Hr Ht Hs Hrows).
  rewrite join_concat. fold response. split_and!.
  - destruct (writable db); unfold trace; simpl;
      rewrite !elem_of_cons; by do 2 right; left.
  - intros rep. destruct (writable db); unfold outcome; simpl; [|done].
    by intros [= <-].
  - by intros ->.
Qed.

Lemma knowledge_response_format_witness :
  let db := DbFile (Some ∅) (Some HEALTHCARE_TECH) true in
  let response :=
    "OpenMRS: Customizable EMR system.
OpenEMR: Open-source EHR and practice management." in
  CacheInsert "EMR" response ∈ trace (ask (λ _, Content "42") (Some "EMR") db) ∧
  outcome (ask (λ _, Content "42") (Some "EMR") db) = Ok (Response response, 200%Z).
Proof.
  intros db response.
  assert (Hp : "EMR" ≠ "") by discriminate.
  assert (Hs : outcome (Sql.select_tech ("%" +:+ "EMR" +:+ "%") db) =
               Ok [("OpenMRS", "Customizable EMR system.");
                   ("OpenEMR", "Open-source EHR and practice management.")])
    by (vm_compute; reflexivity).
  destruct (knowledge_response_format (λ _, Content "42") "EMR" db _
              Hp eq_refl Hs ltac:(discriminate)) as (H1 & _ & H3).
  split; [exact H1|exact (H3 eq_refl)].
Defined.

(** C3, counterexample. The query "openmrs" finds the record named "OpenMRS",
    which does not contain it as a case-sensitive substring; the query "_"
    finds every record, though none contains an underscore. *)
Lemma search_not_case_sensitive :
  Sql.search ("%" +:+ "openmrs" +:+ "%") HEALTHCARE_TECH
    = Ok [("OpenMRS", "Customizable EMR system.")] ∧
  search_spec "openmrs" HEALTHCARE_TECH = [] ∧
  Sql.search ("%" +:+ "openmrs" +:+ "%") HEALTHCARE_TECH
    ≠ Ok (search_spec "openmrs" HEALTHCARE_TECH) ∧
  Sql.search ("%" +:+ "_" +:+ "%") HEALTHCARE_TECH
    ≠ Ok (search_spec "_" HEALTHCARE_TECH).
Proof.
  split_and!; [vm_compute; reflexivity|reflexivity|..]; vm_compute; discriminate.
Qed.

(** On a table without NUL the scan reads every text whole. *)
Lemma search_short_nul_free pat t :
  (Text.utf8_bytes pat <= 50000)%N → Text.nul_free pat = true →
  Forall nul_free_row t →
  Sql.search pat t =
    Ok (map (λ r, (name r, description r))
          (List.filter (λ r, Text.pattern_compare pat (name r) ||
                             Text.pattern_compare pat (description r)) t)).
Proof.
  intros Hlen Hpat Ht. rewrite (search_short pat t Hlen). do 2 f_equal.
  rewrite (TextFacts.c_str_nul_free pat Hpat).
  induction Ht as [|r t [Hn Hd] _ IH]; [done|]. cbn [List.filter].
  by rewrite IH, (TextFacts.c_str_nul_free _ Hn), (TextFacts.c_str_nul_free _ Hd).
Qed.

(** C3, amended. For a query without [%], [_] and NUL, of at most 49998
    bytes, on a table whose texts hold no NUL, the search returns exactly
    the records whose name or description contains the query as a substring
    when ASCII letters are compared without regard to case, in table
    order. The result depends on the query and the table alone. *)
Theorem search_like_semantics :
  ∀ q t,
    Text.wildcard_free q = true →
    Text.nul_free q = true →
    (Text.utf8_bytes q <= 49998)%N →
    Forall nul_free_row t →
    Sql.search ("%" +:+ q +:+ "%") t = Ok (search_folded q t).
Proof.
  intros q t Hq Hnul Hlen Ht.
  rewrite search_short_nul_free; [|rewrite TextFacts.utf8_bytes_pattern; lia| |done].
  2:{ by rewrite !TextFacts.nul_free_app, Hnul. }
  unfold search_folded. do 2 f_equal. apply filter_ext. intros r.
  by rewrite !(TextFacts.pattern_inside_literal q _ Hq).
Qed.

Lemma search_like_semantics_witness :
  Sql.search ("%" +:+ "emr" +:+ "%") HEALTHCARE_TECH =
    Ok [("OpenMRS", "Customizable EMR system."); 
        ("OpenEMR", "Open-source EHR and practice management.")].
Proof.
  assert (Ht : Forall nul_free_row HEALTHCARE_TECH)
    by (repeat constructor).
  exact (search_like_semantics "emr" HEALTHCARE_TECH eq_refl eq_refl
           ltac:(by vm_compute) Ht).
Defined.

(** C5, counterexample. Writing a prompt that has a row raises
    [IntegrityError] and changes nothing. *)
Lemma insert_cache_existing_key_raises :
  let db := DbFile (Some {["What is OpenMRS?" := "old"]}) (Some HEALTHCARE_TECH) true in
  Sql.insert_cache "What is OpenMRS?" "new" db =
    (Raise (IntegrityError "UNIQUE constraint failed: cache.prompt"), db,
     [CacheInsert "What is OpenMRS?" "new"]) ∧
  outcome (Sql.insert_cache "What is OpenMRS?" "new" db) ≠ Ok ().
Proof. split; [vm_compute; reflexivity|vm_compute; discriminate]. Qed.

(** C5, amended. On a writable store the cache write adds the row when the
    prompt has none, and raises [IntegrityError], leaving the cache as it
    was, when the prompt already has a row. The handler reaches the write
    only after the prompt missed the cache. *)
Theorem insert_cache_semantics :
  ∀ p r db c,
    cache db = Some c → writable db = true →
    Sql.insert_cache p r db =
      match c !! p with
      | None => (Ok (), DbFile (Some (<[p := r]> c)) (tech db) true, [CacheInsert p r])
      | Some _ => (Raise Sql.unique_failed, db, [CacheInsert p r])
      end ∧
    (∀ llm prompt, CacheInsert p r ∈ trace (ask llm prompt db) → c !! p = None).
Proof.
  intros p r db c Hc Hw. split.
  - unfold Sql.insert_cache. rewrite Hc, Hw. simpl. by destruct (c !! p).
  - intros llm prompt. by apply ask_insert_after_miss.
Qed.

Lemma insert_cache_semantics_witness :
  let db := DbFile (Some {["What is OpenMRS?" := "old"]}) (Some HEALTHCARE_TECH) true in
  Sql.insert_cache "quantum gravity" "42" db =
    (Ok (),
     DbFile (Some (<["quantum gravity" := "42"]> {["What is OpenMRS?" := "old"]}))
            (Some HEALTHCARE_TECH) true,
     [CacheInsert "quantum gravity" "42"]) ∧
  ({["What is OpenMRS?" := "old"]} : gmap string string) !! "quantum gravity" = None.
Proof.
  intros db.
  destruct (insert_cache_semantics "quantum gravity" "42" db
              {["What is OpenMRS?" := "old"]} eq_refl eq_refl) as [H1 H2].
  split.
  - exact H1.
  - apply (H2 (λ _, Content "42") (Some "quantum gravity")).
    vm_compute. do 3 right. left.
Defined.

(** C6, counterexample. On a file without table [cache] the request raises
    after the cache SELECT and goes no further: the failed read is not taken
    for a miss, though the knowledge table has a matching record. On a file
    that cannot be written the response is computed and then lost: the
    request raises instead of returning it. *)
Lemma storage_error_not_absorbed :
  let llm := λ _ : string, Content "42" in
  let no_cache := DbFile None (Some HEALTHCARE_TECH) true in
  let read_only := DbFile (Some ∅) (Some HEALTHCARE_TECH) false in
  ask llm (Some "OpenMRS") no_cache =
    (Raise (OperationalError "no such table: cache"), no_cache,
     [CacheSelect "OpenMRS"]) ∧
  ask llm (Some "OpenMRS") read_only =
    (Raise (OperationalError "attempt to write a readonly database"), read_only,
     [CacheSelect "OpenMRS"; TechSelect "%OpenMRS%";
      CacheInsert "OpenMRS" "OpenMRS: Customizable EMR system."]) ∧
  (∀ r, outcome (ask llm (Some "OpenMRS") no_cache) ≠ Ok r) ∧
  (∀ r, outcome (ask llm (Some "OpenMRS") read_only) ≠ Ok r).
Proof.
  split_and!; [vm_compute; reflexivity|vm_compute; reflexivity|..];
    intros r; vm_compute; discriminate.
Qed.

(** C6, amended. The handler does not absorb storage errors. If the cache
    cannot be read the request ends there with the storage exception: no
    knowledge search, no completion call, no write, no response. If the
    knowledge table cannot be read, or its SELECT raises for another reason,
    the request ends with that exception after the two SELECTs. If the
    cache write fails the request ends with the storage exception and the
    response it had computed is not returned. The store is left as it was
    in each case. *)
Theorem storage_error_propagates :
  ∀ llm p db,
    p ≠ "" →
    (cache db = None →
     ask llm (Some p) db =
       (Raise (Sql.no_such_table "cache"), db, [CacheSelect p])) ∧
    (∀ c, cache db = Some c → c !! p = None → tech db = None →
     ask llm (Some p) db =
       (Raise (Sql.no_such_table "tech"), db,
        [CacheSelect p; TechSelect ("%" +:+ p +:+ "%")])) ∧
    (∀ c e, cache db = Some c → c !! p = None →
     outcome (Sql.select_tech ("%" +:+ p +:+ "%") db) = Raise e →
     ask llm (Some p) db =
       (Raise e, db, [CacheSelect p; TechSelect ("%" +:+ p +:+ "%")])) ∧
    (∀ c rows, cache db = Some c → c !! p = None →
     outcome (Sql.select_tech ("%" +:+ p +:+ "%") db) = Ok rows →
     writable db = false →
     outcome (ask llm (Some p) db) = Raise Sql.readonly ∧
     final_db (ask llm (Some p) db) = db ∧
     ∃ response, last (trace (ask llm (Some p) db)) = Some (CacheInsert p response)).
Proof.
  intros llm p db Hp. split_and!.
  - intros Hc. by apply ask_no_cache_table.
  - intros c Hc Hr Ht. by eapply ask_no_tech_table.
  - intros c e Hc Hr He. unfold outcome, Sql.select_tech in He.
    destruct (tech db) as [t|] eqn:Ht; simpl in He.
    + by eapply ask_search_raises.
    + injection He as <-. by eapply ask_no_tech_table.
  - intros c rows Hc Hr Hs Hw.
    apply select_tech_ok in Hs as (t & Ht & Hs).
    destruct rows as [|row rows].
    + rewrite (ask_generative llm p db c t Hp Hc Hr Ht Hs), Hw.
      split_and!; [done|done|]. by eexists.
    + rewrite (ask_knowledge llm p db c t _ Hp Hc Hr Ht Hs), Hw by done.
      split_and!; [done|done|]. by eexists.
Qed.

Lemma storage_error_propagates_witness :
  let llm := λ _ : string, Content "42" in
  let no_cache := DbFile None (Some HEALTHCARE_TECH) true in
  let no_tech := DbFile (Some ∅) None true in
  let read_only := DbFile (Some ∅) (Some HEALTHCARE_TECH) false in
  ask llm (Some "quantum gravity") no_cache =
    (Raise (Sql.no_such_table "cache"), no_cache, [CacheSelect "quantum gravity"]) ∧
  ask llm (Some "quantum gravity") no_tech =
    (Raise (Sql.no_such_table "tech"), no_tech,
     [CacheSelect "quantum gravity"; TechSelect "%quantum gravity%"]) ∧
  ask llm (Some "quantum gravity") no_tech =
    (Raise (Sql.no_such_table "tech"), no_tech,
     [CacheSelect "quantum gravity"; TechSelect ("%" +:+ "quantum gravity" +:+ "%")]) ∧
  outcome (ask llm (Some "quantum gravity") read_only) = Raise Sql.readonly ∧
  final_db (ask llm (Some "quantum gravity") read_only) = read_only ∧
  ∃ response, last (trace (ask llm (Some "quantum gravity") read_only))
              = Some (CacheInsert "quantum gravity" response).
Proof.
  intros llm no_cache no_tech read_only.
  assert (Hp : "quantum gravity" ≠ "") by discriminate.
  destruct (storage_error_propagates llm "quantum gravity" no_cache Hp) as (H1 & _).
  destruct (storage_error_propagates llm "quantum gravity" no_tech Hp) as (_ & H2 & H3 & _).
  destruct (storage_error_propagates llm "quantum gravity" read_only Hp) as (_ & _ & _ & H4).
  split; [exact (H1 eq_refl)|].
  split; [exact (H2 ∅ eq_refl (lookup_empty _) eq_refl)|].
  split; [exact (H3 ∅ _ eq_refl (lookup_empty _) eq_refl)|].
  exact (H4 ∅ [] eq_refl (lookup_empty _) ltac:(vm_compute; reflexivity) eq_refl).
Defined.

(** * Facts about argmax *)

Module TensorFacts.
Import Tensor.

Lemma Qltb_lt x y : Qltb x y = true ↔ (x < y)%Q.
Proof.
  unfold Qltb. rewrite negb_true_iff, <- not_true_iff_false, Qle_bool_iff.
  split; [apply Qnot_le_lt|apply Qlt_not_le].
Qed.

Lemma Qltb_ge x y : Qltb x y = false ↔ (y <= x)%Q.
Proof. unfold Qltb. by rewrite negb_false_iff, Qle_bool_iff. Qed.

(** The scan, started after the entries [pre] with their first maximum
    [best] at [best_i], ends on the first maximum of the whole row. *)
Lemma argmax_from_first_max row : ∀ pre best best_i,
  pre !! best_i = Some best →
  (∀ j x, pre !! j = Some x → (x <= best)%Q) →
  (∀ j x, (j < best_i)%nat → pre !! j = Some x → (x < best)%Q) →
  ∃ m, (pre ++ row) !! argmax_from best best_i (length pre) row = Some m ∧
       (∀ j x, (pre ++ row) !! j = Some x → (x <= m)%Q) ∧
       (∀ j x, (j < argmax_from best best_i (length pre) row)%nat →
               (pre ++ row) !! j = Some x → (x < m)%Q).
Proof.
  induction row as [|y row IH]; intros pre best best_i Hbest Hle Hlt; simpl.
  - rewrite app_nil_r. eauto.
  - replace (pre ++ y :: row) with ((pre ++ [y]) ++ row)
      by by rewrite <- app_assoc.
    replace (S (length pre)) with (length (pre ++ [y]))
      by (rewrite length_app; simpl; lia).
    destruct (Qltb best y) eqn:Hy.
    + apply Qltb_lt in Hy. apply IH.
      * by rewrite lookup_app_r, Nat.sub_diag.
      * intros j x Hj. apply lookup_app_Some in Hj as [Hj|[_ Hj]].
        -- apply Qlt_le_weak. eapply Qle_lt_trans; [by eapply Hle|done].
        -- apply list_lookup_singleton_Some in Hj as [_ ->]. apply Qle_refl.
      * intros j x Hj Hx. rewrite lookup_app_l in Hx by done.
        eapply Qle_lt_trans; [by eapply Hle|done].
    + apply Qltb_ge in Hy. apply lookup_lt_Some in Hbest as Hbi. apply IH.
      * by rewrite lookup_app_l.
      * intros j x Hj. apply lookup_app_Some in Hj as [Hj|[_ Hj]].
        -- by eapply Hle.
        -- by apply list_lookup_singleton_Some in Hj as [_ ->].
      * intros j x Hj Hx. rewrite lookup_app_l in Hx by lia. by eapply Hlt.
Qed.

(** [argmax] is defined on a row with an entry, and returns the index of
    a greatest entry, the first one among equals. *)
Lemma argmax_first_max row :
  row ≠ [] →
  ∃ i m, argmax row = Some i ∧ row !! i = Some m ∧
         (∀ j x, row !! j = Some x → (x <= m)%Q) ∧
         (∀ j x, (j < i)%nat → row !! j = Some x → (x < m)%Q).
Proof.
  destruct row as [|y row]; [done|]. intros _. simpl.
  destruct (argmax_from_first_max row [y] y 0) as (m & Hm & Hle & Hlt).
  - done.
  - intros j x Hj. apply list_lookup_singleton_Some in Hj as [_ ->]. apply Qle_refl.
  - intros j x Hj. lia.
  - exists (argmax_from y 0 1 row), m. eauto.
Qed.

End TensorFacts.

(** C8. For an upload that decodes, the handler answers 200 with exactly one
    label. The label is one of robot, sensor, healthcare, technology (so it
    is not empty): it is the one at the position, in this order, of a
    greatest of the four probabilities, the first such position when equal
    probabilities share the maximum. *)
Theorem autotag_label_closed :
  ∀ (upload image : Type) (Image_open : upload → result image)
    (clip_probs : image → Q * Q * Q * Q) (f : upload) (img : image)
    (p0 p1 p2 p3 : Q),
    Image_open f = Ok img →
    clip_probs img = (p0, p1, p2, p3) →
    ∃ i label m,
      autotag Image_open clip_probs (Some f) = Ok (Label label, 200%Z) ∧
      ["robot"; "sensor"; "healthcare"; "technology"] !! i = Some label ∧
      label ∈ ["robot"; "sensor"; "healthcare"; "technology"] ∧
      label ≠ "" ∧
      [p0; p1; p2; p3] !! i = Some m ∧
      (∀ j x, [p0; p1; p2; p3] !! j = Some x → (x <= m)%Q) ∧
      (∀ j x, (j < i)%nat → [p0; p1; p2; p3] !! j = Some x → (x < m)%Q).
Proof.
  intros upload image Image_open clip_probs f img p0 p1 p2 p3 Hf Hp.
  unfold autotag. rewrite Hf, Hp. cbn [probs_row].
  destruct (TensorFacts.argmax_first_max [p0; p1; p2; p3])
    as (i & m & Hi & Hm & Hle & Hlt); [done|].
  rewrite Hi.
  assert (Hlen : (i < 4)%nat) by (by apply lookup_lt_Some in Hm).
  destruct (tags !! i) as [label|] eqn:Hl.
  - exists i, label, m. split_and!; try done.
    + by eapply list_elem_of_lookup_2.
    + do 4 (destruct i as [|i]; [by injection Hl as <-|]). simpl in Hl. done.
  - apply lookup_ge_None in Hl. simpl in Hl. lia.
Qed.

(** Two probabilities share the maximum; the earlier tag is returned. *)
Lemma autotag_label_closed_witness :
  autotag (λ _ : unit, Ok ()) (λ _ : unit, (1 # 10, 4 # 10, 4 # 10, 1 # 10)%Q)
    (Some ()) = Ok (Label "sensor", 200%Z).
Proof.
  destruct (autotag_label_closed unit unit (λ _, Ok ())
              (λ _, (1 # 10, 4 # 10, 4 # 10, 1 # 10)%Q) () ()
              (1 # 10)%Q (4 # 10)%Q (4 # 10)%Q (1 # 10)%Q eq_refl eq_refl)
    as (i & label & m & H & Hl & _ & _ & Hm & Hle & Hlt).
  rewrite H. f_equal. f_equal. f_equal.
  destruct i as [|[|[|[|i]]]]; simpl in Hl, Hm; try discriminate.
  - injection Hm as <-. exfalso.
    apply (Qlt_not_le (1 # 10) (4 # 10)); [by vm_compute|].
    by apply (Hle 1%nat).
  - by injection Hl as <-.
  - injection Hm as <-. exfalso.
    apply (Qlt_irrefl (4 # 10)). by apply (Hlt 1%nat); [lia|].
  - injection Hm as <-. exfalso.
    apply (Qlt_not_le (1 # 10) (4 # 10)); [by vm_compute|].
    by apply (Hle 1%nat).
Defined.

(** * Runs on the seeded store *)

Example lower_OpenMRS : Text.lower "OpenMRS" = "openmrs".
Proof. reflexivity. Qed.

(** The statements of [init_db] all succeed on a fresh file. *)
Example init_db_script_ok :
  outcome ((do _ <- Sql.create_cache;
            do _ <- Sql.create_tech;
            Sql.executemany HEALTHCARE_TECH) empty_db) = Ok ().
Proof. reflexivity. Qed.

(** A question in full words matches no record: the pattern must occur
    inside a name or a description. *)
Example search_full_question :
  Sql.search "%What is OpenMRS?%" HEALTHCARE_TECH = Ok [].
Proof. vm_compute. reflexivity. Qed.

(** The search reads the pattern up to its first NUL: what is left of
    [%EMR\0zzz%] is [%EMR], which a text must end with. *)
Example search_nul_prompt :
  Sql.search ("%" +:+ String "E" (String "M" (String "R" (String "000" "zzz"))) +:+ "%")
    HEALTHCARE_TECH
  = Ok [("OpenEMR", "Open-source EHR and practice management.")].
Proof. vm_compute. reflexivity. Qed.

(** An unknown prompt goes to the completion service once; the second
    request is served from the cache, whatever the service would say. *)
Example ask_twice :
  let db := DbFile (Some ∅) (Some HEALTHCARE_TECH) true in
  let first := ask (λ _, Content "42") (Some "quantum gravity") db in
  outcome first = Ok (Response "42", 200%Z) ∧
  trace first =
    [CacheSelect "quantum gravity"; TechSelect "%quantum gravity%";
     ChatCompletion "quantum gravity"; CacheInsert "quantum gravity" "42"] ∧
  ask (λ _, Content "43") (Some "quantum gravity") (final_db first) =
    (Ok (Response "42", 200%Z), final_db first, [CacheSelect "quantum gravity"]).
Proof. vm_compute. split_and!; reflexivity. Qed.

(** An upload that does not decode raises what PIL raised; no label is made
    up. *)
Example autotag_undecodable :
  autotag (λ _ : unit, @Raise unit (OSError "image file is truncated"))
    (λ _ : unit, (0, 0, 0, 1)%Q) (Some ())
    = Raise (OSError "image file is truncated").
Proof. reflexivity. Qed.

(** * More about the handlers *)

(** X1. A request never removes or changes a cached answer and touches no
    key but its own prompt: the cache after the request contains the cache
    before it, and every other prompt has the row it had, or none as
    before. *)
Theorem ask_cache_frame :
  ∀ llm prompt db c,
    cache db = Some c →
    ∃ c', cache (final_db (ask llm prompt db)) = Some c' ∧ c ⊆ c' ∧
          ∀ q, Some q ≠ prompt → c' !! q = c !! q.
Proof. intros llm prompt db c Hc. by apply ask_store. Qed.

Lemma ask_cache_frame_witness :
  let db := DbFile (Some {["EMR" := "old"]}) (Some HEALTHCARE_TECH) true in
  ∃ c', cache (final_db (ask (λ _, Content "42") (Some "emr") db)) = Some c' ∧
        ({["EMR" := "old"]} : gmap string string) ⊆ c' ∧
        ∀ q, Some q ≠ Some "emr" → c' !! q = ({["EMR" := "old"]} : gmap string string) !! q.
Proof.
  intros db.
  apply (ask_cache_frame (λ _, Content "42") (Some "emr") db {["EMR" := "old"]}).
  reflexivity.
Defined.

(** X2. No request writes the knowledge table or changes whether the file
    can be written: the handler only reads table [tech]. *)
Theorem ask_keeps_knowledge :
  ∀ llm prompt db,
    tech (final_db (ask llm prompt db)) = tech db ∧
    writable (final_db (ask llm prompt db)) = writable db.
Proof. intros llm prompt db. split; by apply ask_store. Qed.

(** X3. A request is all or nothing for the store: if it raises, the file
    is as it was before the request; if it answers 200, the response it
    returned is the cached value of its prompt afterwards. *)
Theorem ask_all_or_nothing :
  ∀ llm prompt db,
    (∀ e, outcome (ask llm prompt db) = Raise e →
          final_db (ask llm prompt db) = db) ∧
    (∀ r, outcome (ask llm prompt db) = Ok (Response r, 200%Z) →
          ∃ p c', prompt = Some p ∧
                  cache (final_db (ask llm prompt db)) = Some c' ∧
                  c' !! p = Some r).
Proof.
  intros llm prompt db.
  destruct (prompt_cases prompt) as [H|(p & -> & Hp)].
  { by rewrite (ask_no_prompt _ _ _ H). }
  split.
  - intros e. rewrite (ask_run llm p db Hp). unfold outcome, final_db.
    destruct (cache db) as [c|]; simpl; [|done].
    destruct (c !! p); simpl; [done|].
    destruct (tech db) as [t|]; simpl; [|done].
    destruct (Sql.search _ t); simpl; [|done].
    by destruct (writable db).
  - intros r H. exists p.
    destruct (ask llm (Some p) db) as [[o db1] tr] eqn:E.
    unfold outcome in H. simpl in H. subst o.
    apply ask_answer_cached in E as (_ & c' & Hc' & Hr'). by exists c'.
Qed.

Lemma ask_all_or_nothing_witness :
  let llm := λ _ : string, Content "42" in
  let read_only := DbFile (Some ∅) (Some HEALTHCARE_TECH) false in
  let db := DbFile (Some ∅) (Some HEALTHCARE_TECH) true in
  final_db (ask llm (Some "quantum gravity") read_only) = read_only ∧
  ∃ p c', Some "quantum gravity" = Some p ∧
          cache (final_db (ask llm (Some "quantum gravity") db)) = Some c' ∧
          c' !! p = Some "42".
Proof.
  intros llm read_only db. split.
  - apply (ask_all_or_nothing llm (Some "quantum gravity") read_only)
      with (e := Sql.readonly).
    vm_compute. reflexivity.
  - apply (ask_all_or_nothing llm (Some "quantum gravity") db).
    vm_compute. reflexivity.
Defined.

(** X4. The calls of a request and what decides each, in order: none for an
    absent or empty prompt; else the cache SELECT; if that returned no row,
    the knowledge SELECT; if that returned no row either, one completion
    call and then the cache INSERT of its text or of the placeholder; if it
    returned rows, no completion call and the cache INSERT of the formatted
    rows. Nothing follows a statement that raised, and no call is made
    twice. *)
Theorem ask_trace_by_case :
  ∀ llm prompt db,
    trace (ask llm prompt db) =
      match prompt with
      | None | Some EmptyString => []
      | Some p =>
          CacheSelect p ::
          match outcome (Sql.select_cache p db) with
          | Ok None =>
              TechSelect ("%" +:+ p +:+ "%") ::
              match outcome (Sql.select_tech ("%" +:+ p +:+ "%") db) with
              | Ok [] =>
                  [ChatCompletion p;
                   CacheInsert p
                     match llm p with
                     | Content text => text
                     | Failure details => "[Error calling model: " +:+ details +:+ "]"
                     end]
              | Ok (row :: rows) =>
                  [CacheInsert p
                     (String.concat (String (Ascii.ascii_of_nat 10) EmptyString)
                        (map (λ r, String.append r.1 (String.append ": " r.2))
                           (row :: rows)))]
              | Raise _ => []
              end
          | Ok (Some _) | Raise _ => []
          end
      end.
Proof.
  intros llm prompt db.
  destruct (prompt_cases prompt) as [H|(p & -> & Hp)].
  { rewrite (ask_no_prompt _ _ _ H). by destruct H as [->| ->]. }
  rewrite (ask_run llm p db Hp).
  unfold trace, outcome, Sql.select_cache, Sql.select_tech.
  destruct p as [|ch p]; [done|].
  destruct (cache db) as [c|]; simpl; [|done].
  destruct (c !! String ch p); simpl; [done|].
  destruct (tech db) as [t|]; simpl; [|done].
  destruct (Sql.search _ t) as [[|row rows]|e]; [| |done].
  - by destruct (writable db).
  - rewrite (join_concat Text.newline). by destruct (writable db).
Qed.





(** X6. A failure of the completion service is remembered for good: once a
    request fell back to the service and the call raised, every later
    request for that prompt gets the error placeholder from the cache, with
    no new completion call, even when the service has recovered. *)
Theorem completion_failure_is_cached :
  ∀ llm p details db c t,
    p ≠ "" →
    cache db = Some c → c !! p = None →
    tech db = Some t → Sql.search ("%" +:+ p +:+ "%") t = Ok [] →
    writable db = true →
    llm p = Failure details →
    ∀ db2 llm',
      evolves (final_db (ask llm (Some p) db)) db2 →
      ask llm' (Some p) db2 =
        (Ok (Response ("[Error calling model: " +:+ details +:+ "]"), 200%Z),
         db2, [CacheSelect p]).
Proof.
  intros llm p details db c t Hp Hc Hr Ht Hs Hw Hllm db2 llm' Hev.
  assert (H1 : ∃ c1, cache (final_db (ask llm (Some p) db)) = Some c1 ∧
                     c1 !! p = Some ("[Error calling model: " +:+ details +:+ "]")).
  { rewrite (ask_generative llm p db c t Hp Hc Hr Ht Hs), Hw, Hllm.
    unfold final_db. simpl. eexists. split; [done|]. apply lookup_insert_eq. }
  destruct H1 as (c1 & Hc1 & Hr1).
  destruct (evolves_keeps_rows _ _ _ _ _ Hev Hc1 Hr1) as (c2 & Hc2 & Hr2).
  by eapply ask_hit.
Qed.

Lemma completion_failure_is_cached_witness :
  let db := DbFile (Some ∅) (Some HEALTHCARE_TECH) true in
  let down := λ _ : string, Failure "Connection refused" in
  let up := λ _ : string, Content "42" in
  let db1 := final_db (ask down (Some "quantum gravity") db) in
  ask up (Some "quantum gravity") db1 =
    (Ok (Response "[Error calling model: Connection refused]", 200%Z), db1,
     [CacheSelect "quantum gravity"]).
Proof.
  intros db down up db1.
  assert (Hp : "quantum gravity" ≠ "") by discriminate.
  assert (Hs : Sql.search ("%" +:+ "quantum gravity" +:+ "%") HEALTHCARE_TECH = Ok [])
    by (vm_compute; reflexivity).
  apply (completion_failure_is_cached down "quantum gravity" "Connection refused"
           db ∅ HEALTHCARE_TECH Hp eq_refl (lookup_empty _) eq_refl Hs eq_refl eq_refl).
  apply evolves_refl.
Defined.

(** X7. Cache keys are exact: answering one prompt never makes another a
    hit. A prompt that had no row has none after a request for a different
    prompt, however close the two are, and its own request still runs the
    knowledge search. *)
Theorem ask_exact_key :
  ∀ llm llm' p q db c,
    cache db = Some c → c !! q = None → q ≠ p → q ≠ "" →
    ∃ rest,
      trace (ask llm' (Some q) (final_db (ask llm (Some p) db))) =
        CacheSelect q :: TechSelect ("%" +:+ q +:+ "%") :: rest.
Proof.
  intros llm llm' p q db c Hc Hq Hne Hq0.
  destruct (ask_store llm (Some p) db) as (Ht & _ & _ & Hframe).
  destruct (Hframe c Hc) as (c' & Hc' & _ & Hother).
  rewrite (ask_run llm' q _ Hq0), Hc', Hother, Hq by congruence.
  unfold trace. destruct (tech _) as [t|]; simpl; [|by eexists].
  destruct (Sql.search _ t); simpl; [|by eexists].
  destruct (writable _); simpl; by eexists.
Qed.

Lemma ask_exact_key_witness :
  let db := DbFile (Some ∅) (Some HEALTHCARE_TECH) true in
  ∃ rest,
    trace (ask (λ _, Content "43") (Some "OpenMRS ")
             (final_db (ask (λ _, Content "42") (Some "OpenMRS") db))) =
      CacheSelect "OpenMRS " :: TechSelect ("%" +:+ "OpenMRS " +:+ "%") :: rest.
Proof.
  intros db.
  apply (ask_exact_key (λ _, Content "42") (λ _, Content "43") "OpenMRS" "OpenMRS " db ∅).
  - reflexivity.
  - reflexivity.
  - discriminate.
  - discriminate.
Defined.

(** X8. [init_db] does not repair a file: when a file exists at [DB_PATH]
    without the [cache] table, [init_db] leaves it so, and every request
    with a prompt then raises at its first statement. *)
Theorem init_db_does_not_repair :
  ∀ db llm p,
    cache db = None → p ≠ "" →
    ∃ db', init_db (Some db) = Some db' ∧
           ask llm (Some p) db' =
             (Raise (Sql.no_such_table "cache"), db', [CacheSelect p]).
Proof.
  intros db llm p Hc Hp. exists db. split; [done|]. by apply ask_no_cache_table.
Qed.

Lemma init_db_does_not_repair_witness :
  ∃ db', init_db (Some empty_db) = Some db' ∧
         ask (λ _, Content "42") (Some "EMR") db' =
           (Raise (Sql.no_such_table "cache"), db', [CacheSelect "EMR"]).
Proof.
  apply (init_db_does_not_repair empty_db (λ _, Content "42") "EMR").
  - reflexivity.
  - discriminate.
Defined.

(** X9. [executemany] appends the rows to table [tech] in the order of the
    list, on a file that has the table and can be written. *)
Theorem executemany_appends :
  ∀ rows db t,
    tech db = Some t → writable db = true →
    Sql.executemany rows db =
      (Ok (), DbFile (cache db) (Some (t ++ rows)) (writable db), []).
Proof.
  induction rows as [|r rows IH]; intros db t Ht Hw.
  - simpl. unfold ret. rewrite app_nil_r, <- Ht. by destruct db.
  - simpl. unfold bind, Sql.insert_tech. rewrite Ht, Hw. simpl.
    rewrite (IH _ (t ++ [r])) by done. simpl. by rewrite <- app_assoc.
Qed.

Lemma executemany_appends_witness :
  Sql.executemany HEALTHCARE_TECH (DbFile (Some ∅) (Some []) true) =
    (Ok (), DbFile (Some ∅) (Some HEALTHCARE_TECH) true, []).
Proof.
  apply (executemany_appends HEALTHCARE_TECH (DbFile (Some ∅) (Some []) true) []);
    reflexivity.
Defined.

(** X10. A written answer reads back, and is written once: after a cache
    INSERT that succeeded, the SELECT for that prompt returns the response
    written, and a second INSERT for the prompt raises [IntegrityError]
    without changing the row. *)
Theorem insert_then_select :
  ∀ p r r' db,
    outcome (Sql.insert_cache p r db) = Ok () →
    let db1 := final_db (Sql.insert_cache p r db) in
    Sql.select_cache p db1 = (Ok (Some r), db1, [CacheSelect p]) ∧
    Sql.insert_cache p r' db1 = (Raise Sql.unique_failed, db1, [CacheInsert p r']).
Proof.
  intros p r r' [oc ot w]. unfold Sql.insert_cache, Sql.select_cache, outcome, final_db.
  simpl. destruct oc as [c|]; simpl; [|done].
  destruct w; simpl; [|done].
  destruct (c !! p) eqn:Hr; simpl; [done|].
  intros _. by rewrite lookup_insert_eq.
Qed.

Lemma insert_then_select_witness :
  let db := DbFile (Some ∅) (Some HEALTHCARE_TECH) true in
  let db1 := final_db (Sql.insert_cache "quantum gravity" "42" db) in
  Sql.select_cache "quantum gravity" db1 =
    (Ok (Some "42"), db1, [CacheSelect "quantum gravity"]) ∧
  Sql.insert_cache "quantum gravity" "43" db1 =
    (Raise Sql.unique_failed, db1, [CacheInsert "quantum gravity" "43"]).
Proof.
  intros db.
  apply (insert_then_select "quantum gravity" "42" "43" db). reflexivity.
Defined.

(** * More about the search *)

Module LikeFacts.
Import Text TextFacts.

(** Folding does not make or unmake a wildcard or a NUL, and keeps the
    number of bytes. *)
Lemma fold_char_percent c : Ascii.eqb (fold_char c) "%" = Ascii.eqb c "%".
Proof. by destruct c as [[] [] [] [] [] [] [] []]. Qed.

Lemma fold_char_underscore c : Ascii.eqb (fold_char c) "_" = Ascii.eqb c "_".
Proof. by destruct c as [[] [] [] [] [] [] [] []]. Qed.

Lemma fold_char_nul c : Ascii.eqb (fold_char c) "000" = Ascii.eqb c "000".
Proof. by destruct c as [[] [] [] [] [] [] [] []]. Qed.

Lemma fold_char_bytes c :
  (Ascii.N_of_ascii (fold_char c) <? 128)%N = (Ascii.N_of_ascii c <? 128)%N.
Proof. by destruct c as [[] [] [] [] [] [] [] []]. Qed.

Lemma utf8_bytes_lower s : utf8_bytes (lower s) = utf8_bytes s.
Proof.
  induction s as [|c s IH]; [done|]. simpl. by rewrite fold_char_bytes, IH.
Qed.

Lemma c_str_lower s : c_str (lower s) = lower (c_str s).
Proof.
  induction s as [|c s IH]; [done|]. simpl. rewrite fold_char_nul.
  destruct (Ascii.eqb c "000"); [done|]. simpl. by rewrite IH.
Qed.

(** Every pattern matches itself read as a text. *)
Lemma like_self q : pattern_compare q q = true.
Proof.
  induction q as [|c q IH]; [done|]. rewrite like_cons.
  destruct (Ascii.eqb c "%") eqn:Ec.
  - apply orb_true_iff. right. apply Ascii.eqb_eq in Ec. subst c.
    apply like_percent. by exists "", q.
  - destruct (Ascii.eqb c "_"); [done|].
    apply andb_true_iff. split; [by apply Ascii.eqb_eq|done].
Qed.

(** A text that contains the query is matched by [%query%]. *)
Lemma contains_like q s :
  contains q s = true → pattern_compare ("%" +:+ q +:+ "%") s = true.
Proof.
  intros (pre & post & ->)%contains_iff. apply like_inside.
  exists pre, q, post. split; [done|apply like_self].
Qed.

(** Patterns equal up to the case of ASCII letters match the same texts. *)
Lemma like_fold_pattern q :
  ∀ q' s, lower q = lower q' → pattern_compare q s = pattern_compare q' s.
Proof.
  induction q as [|c q IH]; intros [|c' q'] s E; try done.
  simpl in E. injection E as Ec E.
  assert (Hp : Ascii.eqb c "%" = Ascii.eqb c' "%")
    by by rewrite <- fold_char_percent, Ec, fold_char_percent.
  assert (Hu : Ascii.eqb c "_" = Ascii.eqb c' "_")
    by by rewrite <- fold_char_underscore, Ec, fold_char_underscore.
  destruct (Ascii.eqb c' "%") eqn:Ep.
  - apply Ascii.eqb_eq in Hp, Ep. subst c c'. apply eq_true_iff_eq.
    rewrite !like_percent.
    split; intros (s1 & s2 & -> & H); exists s1, s2; (split; [done|]).
    + by rewrite <- (IH q' s2 E).
    + by rewrite (IH q' s2 E).
  - rewrite (like_cons c), (like_cons c'), Hp, Hu, Ep.
    destruct (Ascii.eqb c' "_"); destruct s as [|d s]; try done.
    + by apply IH.
    + by rewrite Ec, (IH q' s E).
Qed.

(** A pattern of [%] alone matches the empty text, and holds no NUL. *)
Lemma all_percent_empty q : all_percent q = true → pattern_compare q "" = true.
Proof.
  induction q as [|c q IH]; [done|]. simpl.
  intros [Hc Hq]%andb_true_iff. rewrite Hc. by rewrite (IH Hq).
Qed.

Lemma all_percent_nul_free q : all_percent q = true → nul_free q = true.
Proof.
  induction q as [|c q IH]; [done|]. simpl.
  intros [Hc Hq]%andb_true_iff. apply Ascii.eqb_eq in Hc. subst c.
  by rewrite (IH Hq).
Qed.

Lemma join_cons2 sep x y rest :
  join sep (x :: y :: rest) = x +:+ sep +:+ join sep (y :: rest).
Proof. reflexivity. Qed.

(** Each part of a join is inside the join. *)
Lemma join_inside sep parts x :
  x ∈ parts → ∃ pre post, join sep parts = pre +:+ x +:+ post.
Proof.
  intros Hx. induction parts as [|y parts IH].
  - by apply elem_of_nil in Hx.
  - destruct parts as [|z parts].
    + apply list_elem_of_singleton in Hx as ->. exists "", "".
      by rewrite app_empty_l, app_empty_r.
    + rewrite join_cons2. apply elem_of_cons in Hx as [->|Hx].
      * by exists "", (sep +:+ join sep (z :: parts)).
      * destruct (IH Hx) as (pre & post & E). rewrite E.
        exists (y +:+ sep +:+ pre), post. by rewrite !app_assoc.
Qed.

End LikeFacts.

(** The rows of a scan that returned. *)
Lemma search_elem pat t rows row :
  Sql.search pat t = Ok rows →
  row ∈ rows ↔
  ∃ r, r ∈ t ∧ row = (name r, description r) ∧
       (Text.pattern_compare (Text.c_str pat) (Text.c_str (name r)) = true ∨
        Text.pattern_compare (Text.c_str pat) (Text.c_str (description r)) = true).
Proof.
  intros Hs.
  destruct (N.le_gt_cases (Text.utf8_bytes pat) 50000) as [H|H].
  2:{ destruct t as [|r0 t].
      - injection Hs as <-. split; [by intros ?%elem_of_nil|].
        by intros (r & ?%elem_of_nil & _).
      - by rewrite (search_long pat _ H) in Hs. }
  rewrite (search_short pat t H) in Hs. injection Hs as <-.
  rewrite list_elem_of_In, in_map_iff. split.
  - intros (r & <- & Hr). apply filter_In in Hr as [Hr Hm].
    exists r. rewrite list_elem_of_In. by apply orb_true_iff in Hm.
  - intros (r & Hr & -> & Hm). exists r. split; [done|].
    apply filter_In. rewrite <- list_elem_of_In. by apply orb_true_iff in Hm.
Qed.

(** A literal occurrence is found. *)
Lemma search_literal q t r :
  Text.nul_free q = true → (Text.utf8_bytes q <= 49998)%N →
  r ∈ t →
  (Text.nul_free (name r) = true ∧ Text.contains q (name r) = true) ∨
  (Text.nul_free (description r) = true ∧ Text.contains q (description r) = true) →
  ∃ rows, Sql.search ("%" +:+ q +:+ "%") t = Ok rows ∧
          (name r, description r) ∈ rows.
Proof.
  intros Hnul Hlen Hr Hq.
  assert (Hs := search_short ("%" +:+ q +:+ "%") t).
  rewrite TextFacts.utf8_bytes_pattern in Hs. specialize (Hs ltac:(lia)).
  eexists. split; [exact Hs|]. apply (search_elem _ _ _ _ Hs).
  exists r. split_and!; [done|done|].
  rewrite (TextFacts.c_str_pattern q Hnul).
  destruct Hq as [[Hn Hq]|[Hn Hq]]; [left|right];
    rewrite (TextFacts.c_str_nul_free _ Hn); by apply LikeFacts.contains_like.
Qed.

(** X11. The search ignores the case of ASCII letters in the query: two
    queries that are equal after folding to lower case select the same
    records from every table. (The cache does not: they are different
    keys.) *)
Theorem search_ignores_query_case :
  ∀ q q' t,
    Text.lower q = Text.lower q' →
    Sql.search ("%" +:+ q +:+ "%") t = Sql.search ("%" +:+ q' +:+ "%") t.
Proof.
  intros q q' t E.
  assert (Epat : Text.lower ("%" +:+ q +:+ "%") = Text.lower ("%" +:+ q' +:+ "%")).
  { change ("%" +:+ q +:+ "%") with (String "%" (q +:+ "%")).
    change ("%" +:+ q' +:+ "%") with (String "%" (q' +:+ "%")).
    simpl. by rewrite !TextFacts.lower_app, E. }
  assert (Elen : Text.utf8_bytes ("%" +:+ q +:+ "%") = Text.utf8_bytes ("%" +:+ q' +:+ "%")).
  { by rewrite <- (LikeFacts.utf8_bytes_lower ("%" +:+ q +:+ "%")), Epat,
      LikeFacts.utf8_bytes_lower. }
  destruct (N.le_gt_cases (Text.utf8_bytes ("%" +:+ q +:+ "%")) 50000) as [H|H].
  - rewrite (search_short _ t H), (search_short _ t) by by rewrite <- Elen.
    do 2 f_equal. apply filter_ext. intros r.
    assert (Ec : Text.lower (Text.c_str ("%" +:+ q +:+ "%")) =
                 Text.lower (Text.c_str ("%" +:+ q' +:+ "%")))
      by by rewrite <- !LikeFacts.c_str_lower, Epat.
    by rewrite !(LikeFacts.like_fold_pattern _ _ _ Ec).
  - destruct t as [|r t]; [done|].
    rewrite (search_long _ (r :: t) H), (search_long _ (r :: t)); try done.
    by rewrite <- Elen.
Qed.

Lemma search_ignores_query_case_witness :
  Sql.search ("%" +:+ "OPENmrs" +:+ "%") HEALTHCARE_TECH =
  Sql.search ("%" +:+ "openMRS" +:+ "%") HEALTHCARE_TECH.
Proof.
  apply (search_ignores_query_case "OPENmrs" "openMRS" HEALTHCARE_TECH).
  reflexivity.
Defined.

(** X12. The search misses no literal occurrence of a prompt without NUL of
    at most 49998 bytes: every record with a name or description that holds
    no NUL and contains the prompt exactly as written is among the rows
    returned, also when the prompt holds [%] or [_]. *)
Theorem search_finds_literal :
  ∀ q t r,
    Text.nul_free q = true →
    (Text.utf8_bytes q <= 49998)%N →
    r ∈ t →
    (Text.nul_free (name r) = true ∧ Text.contains q (name r) = true) ∨
    (Text.nul_free (description r) = true ∧ Text.contains q (description r) = true) →
    ∃ rows, Sql.search ("%" +:+ q +:+ "%") t = Ok rows ∧
            (name r, description r) ∈ rows.
Proof. intros q t r. apply search_literal. Qed.

Lemma search_finds_literal_witness :
  ∃ rows, Sql.search ("%" +:+ "hospital" +:+ "%") HEALTHCARE_TECH = Ok rows ∧
          ("GNU Health", "Health and hospital information system.") ∈ rows.
Proof.
  apply (search_finds_literal "hospital" HEALTHCARE_TECH
           (TechRow "GNU Health" "Health and hospital information system."
                    "https://www.gnuhealth.org/")).
  - reflexivity.
  - by vm_compute.
  - do 2 right. left.
  - right. split; reflexivity.
Defined.

(** X13. A prompt made of [%] characters alone, of at most 49998 bytes,
    selects the whole table, in order. *)
Theorem search_wildcard_query_returns_all :
  ∀ q t,
    Text.all_percent q = true →
    (Text.utf8_bytes q <= 49998)%N →
    Sql.search ("%" +:+ q +:+ "%") t = Ok (map (λ r, (name r, description r)) t).
Proof.
  intros q t Hq Hlen.
  rewrite search_short by (rewrite TextFacts.utf8_bytes_pattern; lia).
  do 2 f_equal.
  rewrite (TextFacts.c_str_pattern q (LikeFacts.all_percent_nul_free q Hq)).
  induction t as [|r t IH]; [done|]. cbn [List.filter].
  assert (H : Text.pattern_compare ("%" +:+ q +:+ "%") (Text.c_str (name r)) = true).
  { apply TextFacts.like_inside. exists (Text.c_str (name r)), "", "".
    rewrite !TextFacts.app_empty_r. split; [done|].
    by apply LikeFacts.all_percent_empty. }
  rewrite H. cbn [orb]. by rewrite IH.
Qed.

Lemma search_wildcard_query_returns_all_witness :
  Sql.search ("%" +:+ "%%" +:+ "%") HEALTHCARE_TECH =
    Ok (map (λ r, (name r, description r)) HEALTHCARE_TECH).
Proof.
  apply (search_wildcard_query_returns_all "%%" HEALTHCARE_TECH).
  - reflexivity.
  - by vm_compute.
Defined.

(** X14. When a prompt without NUL of at most 49998 bytes occurs, as
    written, in the name or the description of a record (a text without
    NUL), a request that misses the cache answers 200 from the knowledge
    table, without a completion call, and its response contains that
    record's line "name: description". *)
Theorem ask_answer_contains_record :
  ∀ llm p db c t r,
    p ≠ "" →
    Text.nul_free p = true →
    (Text.utf8_bytes p <= 49998)%N →
    cache db = Some c → c !! p = None →
    tech db = Some t → writable db = true →
    r ∈ t →
    (Text.nul_free (name r) = true ∧ Text.contains p (name r) = true) ∨
    (Text.nul_free (description r) = true ∧ Text.contains p (description r) = true) →
    ∃ response,
      outcome (ask llm (Some p) db) = Ok (Response response, 200%Z) ∧
      (∃ pre post,
         response = pre +:+ (name r +:+ ": " +:+ description r) +:+ post) ∧
      ∀ q, ChatCompletion q ∉ trace (ask llm (Some p) db).
Proof.
  intros llm p db c t r Hp Hnul Hlen Hc Hr Ht Hw Hin Hq.
  destruct (search_literal p t r Hnul Hlen Hin Hq) as (rows & Hs & Hrow).
  assert (Hne : rows ≠ []).
  { intros ->. by apply elem_of_nil in Hrow. }
  rewrite (ask_knowledge llm p db c t rows Hp Hc Hr Ht Hs Hne), Hw.
  eexists. split; [done|]. split.
  - apply LikeFacts.join_inside.
    change (name r +:+ ": " +:+ description r)
      with (format_row (name r, description r)).
    apply list_elem_of_In, in_map, list_elem_of_In, Hrow.
  - intros q. unfold trace. simpl.
    rewrite !elem_of_cons, elem_of_nil. intros [?|[?|[?|[]]]]; discriminate.
Qed.

Lemma ask_answer_contains_record_witness :
  let db := DbFile (Some ∅) (Some HEALTHCARE_TECH) true in
  ∃ response,
    outcome (ask (λ _, Content "42") (Some "EMR") db) = Ok (Response response, 200%Z) ∧
    (∃ pre post,
       response = pre +:+ ("OpenMRS" +:+ ": " +:+ "Customizable EMR system.") +:+ post) ∧
    ∀ q, ChatCompletion q ∉ trace (ask (λ _, Content "42") (Some "EMR") db).
Proof.
  intros db.
  apply (ask_answer_contains_record (λ _, Content "42") "EMR" db ∅ HEALTHCARE_TECH
           (TechRow "OpenMRS" "Customizable EMR system." "https://openmrs.org/")).
  - discriminate.
  - reflexivity.
  - by vm_compute.
  - reflexivity.
  - reflexivity.
  - reflexivity.
  - reflexivity.
  - left.
  - right. split; reflexivity.
Defined.

(** X20. A prompt of 49999 bytes or more that misses the cache is refused
    by the knowledge search whenever table [tech] has a row: the request
    raises "LIKE or GLOB pattern too complex" after the two SELECTs, with no
    completion call and nothing written. *)
Theorem ask_long_prompt_raises :
  ∀ llm p db c t,
    (49999 <= Text.utf8_bytes p)%N →
    cache db = Some c → c !! p = None →
    tech db = Some t → t ≠ [] →
    ask llm (Some p) db =
      (Raise (OperationalError "LIKE or GLOB pattern too complex"), db,
       [CacheSelect p; TechSelect ("%" +:+ p +:+ "%")]).
Proof.
  intros llm p db c t Hlen Hc Hr Ht Hne.
  assert (Hp : p ≠ "") by (intros ->; simpl in Hlen; lia).
  eapply ask_search_raises; try done.
  apply search_long; [|done]. rewrite TextFacts.utf8_bytes_pattern. lia.
Qed.

Lemma ask_long_prompt_raises_witness :
  let p := String.string_of_list_ascii (repeat "a"%char (N.to_nat 49999)) in
  let db := DbFile (Some ∅) (Some HEALTHCARE_TECH) true in
  outcome (ask (λ _, Content "42") (Some p) db) =
    Raise (OperationalError "LIKE or GLOB pattern too complex").
Proof.
  intros p db.
  rewrite (ask_long_prompt_raises (λ _, Content "42") p db ∅ HEALTHCARE_TECH).
  - reflexivity.
  - by vm_compute.
  - reflexivity.
  - apply lookup_empty.
  - reflexivity.
  - discriminate.
Defined.

(** * More about the tagging *)

Module ArgmaxFacts.
Import Tensor TensorFacts.

(** The first position of a greatest entry is what [argmax] returns. *)
Lemma argmax_determined row i m :
  row !! i = Some m →
  (∀ j x, row !! j = Some x → (x <= m)%Q) →
  (∀ j x, (j < i)%nat → row !! j = Some x → (x < m)%Q) →
  argmax row = Some i.
Proof.
  intros Hm Hle Hlt.
  destruct (argmax_first_max row) as (i' & m' & Hi' & Hm' & Hle' & Hlt').
  { intros ->. by rewrite lookup_nil in Hm. }
  rewrite Hi'. f_equal.
  destruct (Nat.lt_total i' i) as [H|[H|H]]; [|done|].
  - exfalso. apply (Qlt_not_le _ _ (Hlt _ _ H Hm')). by eapply Hle'.
  - exfalso. apply (Qlt_not_le _ _ (Hlt' _ _ H Hm)). by eapply Hle.
Qed.

End ArgmaxFacts.

(** X15. The label is determined by the probabilities: if position [i] holds
    a greatest probability and every earlier position holds a strictly
    smaller one, the handler returns the tag at position [i]. *)
Theorem autotag_first_max_wins :
  ∀ (upload image : Type) (Image_open : upload → result image)
    (clip_probs : image → Q * Q * Q * Q) (f : upload) (img : image) i m label,
    Image_open f = Ok img →
    probs_row (clip_probs img) !! i = Some m →
    (∀ j x, probs_row (clip_probs img) !! j = Some x → (x <= m)%Q) →
    (∀ j x, (j < i)%nat → probs_row (clip_probs img) !! j = Some x → (x < m)%Q) →
    tags !! i = Some label →
    autotag Image_open clip_probs (Some f) = Ok (Label label, 200%Z).
Proof.
  intros upload image Image_open clip_probs f img i m label Hf Hm Hle Hlt Hl.
  unfold autotag. rewrite Hf.
  by rewrite (ArgmaxFacts.argmax_determined _ i m Hm Hle Hlt), Hl.
Qed.

Lemma autotag_first_max_wins_witness :
  autotag (λ _ : unit, Ok ()) (λ _ : unit, (1 # 10, 2 # 10, 5 # 10, 2 # 10)%Q)
    (Some ()) = Ok (Label "healthcare", 200%Z).
Proof.
  apply (autotag_first_max_wins unit unit (λ _, Ok ())
           (λ _, (1 # 10, 2 # 10, 5 # 10, 2 # 10)%Q) () () 2%nat (5 # 10)%Q "healthcare").
  - reflexivity.
  - reflexivity.
  - intros [|[|[|[|j]]]] x; simpl; intros [= <-]; by vm_compute.
  - intros [|[|j]] x Hj; [| |lia]; simpl; intros [= <-]; by vm_compute.
  - reflexivity.
Defined.

(** X18. On a file that cannot be written, the requests that are answered
    are exactly those that need no write: the ones without a prompt and the
    ones whose prompt is cached. *)
Theorem read_only_serves_hits_only :
  ∀ llm prompt db c t,
    cache db = Some c → tech db = Some t → writable db = false →
    (∃ rep, outcome (ask llm prompt db) = Ok rep) ↔
    (prompt = None ∨ prompt = Some "" ∨ ∃ p r, prompt = Some p ∧ c !! p = Some r).
Proof.
  intros llm prompt db c t Hc Ht Hw.
  destruct (prompt_cases prompt) as [H|(p & -> & Hp)].
  { rewrite (ask_no_prompt _ _ _ H). split; [|by eexists].
    intros _. destruct H; auto. }
  rewrite (ask_run llm p db Hp), Hc, Ht, Hw. unfold outcome.
  destruct (c !! p) as [r|] eqn:Hr; simpl.
  - split; [|by eexists]. intros _. right. right. by exists p, r.
  - split.
    + destruct (Sql.search _ t); by intros [rep ?].
    + intros [?|[?|(p' & r & [= <-] & Hr')]]; [done|congruence|congruence].
Qed.

Lemma read_only_serves_hits_only_witness :
  let db := DbFile (Some {["EMR" := "cached"]}) (Some HEALTHCARE_TECH) false in
  (∃ rep, outcome (ask (λ _, Content "42") (Some "EMR") db) = Ok rep) ↔
  (Some "EMR" = None ∨ Some "EMR" = Some "" ∨
   ∃ p r, Some "EMR" = Some p ∧
          ({["EMR" := "cached"]} : gmap string string) !! p = Some r).
Proof.
  intros db.
  apply (read_only_serves_hits_only (λ _, Content "42") (Some "EMR") db
           {["EMR" := "cached"]} HEALTHCARE_TECH); reflexivity.
Defined.

(** X19. The completion service is called exactly when the request has a
    prompt that is not cached and the knowledge search for it found nothing,
    and it is called with that prompt as it came. *)
Theorem completion_called_iff :
  ∀ llm prompt db q,
    ChatCompletion q ∈ trace (ask llm prompt db) ↔
    prompt = Some q ∧ q ≠ "" ∧
    ∃ c t, cache db = Some c ∧ c !! q = None ∧ tech db = Some t ∧
           Sql.search ("%" +:+ q +:+ "%") t = Ok [].
Proof.
  intros llm prompt db q.
  destruct (prompt_cases prompt) as [H|(p & -> & Hp)].
  { rewrite (ask_no_prompt _ _ _ H). unfold trace. simpl. split.
    - by intros ?%elem_of_nil.
    - intros (-> & Hq & _). by destruct H as [?|[= ->]]. }
  rewrite (ask_run llm p db Hp). unfold trace.
  destruct (cache db) as [c|] eqn:Hc; simpl.
  2:{ split; [|by intros (_ & _ & ? & ? & ? & _)].
      rewrite !elem_of_cons, elem_of_nil. intros [?|[]]; discriminate. }
  destruct (c !! p) as [r|] eqn:Hr; simpl.
  { split.
    - rewrite !elem_of_cons, elem_of_nil. intros [?|[]]; discriminate.
    - intros ([= <-] & _ & ? & ? & [= <-] & ? & _). congruence. }
  destruct (tech db) as [t|] eqn:Ht; simpl.
  2:{ split; [|by intros (_ & _ & ? & ? & _ & _ & ? & _)].
      rewrite !elem_of_cons, elem_of_nil. intros [?|[?|[]]]; discriminate. }
  destruct (Sql.search ("%" +:+ p +:+ "%") t) as [[|row rows]|e] eqn:Hs.
  - split.
    + destruct (writable db); simpl; rewrite !elem_of_cons, elem_of_nil;
        intros [?|[?|[E|[?|[]]]]]; try discriminate;
        injection E as ->; split_and!; try done; by exists c, t.
    + intros ([= <-] & _). destruct (writable db); simpl;
        rewrite !elem_of_cons; by do 2 right; left.
  - split.
    + destruct (writable db); simpl; rewrite !elem_of_cons, elem_of_nil;
        intros [?|[?|[?|[]]]]; discriminate.
    + intros ([= <-] & _ & ? & ? & [= <-] & _ & [= <-] & Hs'). congruence.
  - split.
    + simpl. rewrite !elem_of_cons, elem_of_nil. intros [?|[?|[]]]; discriminate.
    + intros ([= <-] & _ & ? & ? & [= <-] & _ & [= <-] & Hs'). congruence.
Qed.
